(** * libtcod tilesets: a shallow embedding of [src/libtcod/tileset.c]

    The C functions are translated one by one, keeping their names.  C [int]s
    are mathematical integers ([Z]).  The doubling loop of the charmap checks
    signed overflow explicitly.  The other products and sums of the source
    ([tile_width * tile_height], [tiles_capacity * 2], the offsets into the
    arena and the image, [columns * rows]) are taken in [Z]: they are the
    values the source computes as long as they lie in the range of [int], and
    a statement that depends on this carries the range conditions [in_int],
    [arena_in_int] or [atlas_in_int] as hypotheses.  Heap buffers are lists, a [NULL] buffer being the empty
    list; an access outside a buffer is undefined behaviour in C and is
    [None] here.  So a function of the model that touches memory returns an
    [option] whose [None] means "undefined" (or, for the one [while] loop
    that is bounded by fuel, "did not finish"), never "error": C-level errors
    are the [-1] and [NULL] results of the source.  What [realloc],
    [malloc] and [calloc] answer is an argument of the functions that call
    them.  Hooks are functions of their arguments; the calls made to them
    and the calls of [free] are recorded as a list of events. *)

From stdpp Require Import base numbers option list.

Local Open Scope Z_scope.

(** ** Data model *)

(** Modelled from the spec: the struct declarations live in [tileset.h] and
    [color/color.h], which are not part of the translated file.  The fields
    are the ones [tileset.c] reads and writes.  A colour is four 8-bit
    channels. *)
Record TCOD_ColorRGBA := RGBA { r : Z; g : Z; b : Z; a : Z }.

#[global] Instance TCOD_ColorRGBA_eq_dec : EqDecision TCOD_ColorRGBA.
Proof. solve_decision. Defined.

#[global] Instance TCOD_ColorRGBA_inhabited : Inhabited TCOD_ColorRGBA :=
  populate (RGBA 0 0 0 0).

(** Addresses of observer nodes (what [calloc] returns). *)
Definition addr := nat.

(** An observer node.  [next] is the tail of the list the node sits in and
    the back-reference [tileset] is the tileset that holds that list.  The
    change hook returns a status from the tile id and the codepoint; the
    deletion hook returns nothing, so only its presence is recorded. *)
Record TCOD_TilesetObserver := Observer {
  self : addr;
  on_tileset_changed : option (Z → Z → Z);
  on_observer_delete : bool;
}.

Record TCOD_Tileset := Tileset {
  tile_width : Z;
  tile_height : Z;
  tile_length : Z;
  tiles_capacity : Z;
  tiles_count : Z;
  pixels : list TCOD_ColorRGBA;
  character_map_length : Z;
  character_map : list Z;
  observer_list : list TCOD_TilesetObserver;
  virtual_columns : Z;
  ref_count : Z;
}.

(** What the outside world sees of a call: hook invocations and [free]s, in
    program order. *)
Inductive Block :=
| PixelArena
| Charmap
| TilesetStruct
| ObserverNode (p : addr).

Inductive Event :=
| ChangeHook (observer : addr) (tile_id codepoint : Z)
| DeleteHook (observer : addr)
| Free (blk : Block).

#[global] Instance Block_eq_dec : EqDecision Block.
Proof. solve_decision. Defined.
#[global] Instance Event_eq_dec : EqDecision Event.
Proof. solve_decision. Defined.

(** Field updates. *)
Definition with_pixels (t : TCOD_Tileset) (cap : Z) (px : list TCOD_ColorRGBA) :=
  Tileset (tile_width t) (tile_height t) (tile_length t) cap (tiles_count t)
    px (character_map_length t) (character_map t) (observer_list t)
    (virtual_columns t) (ref_count t).

Definition with_tiles_count (t : TCOD_Tileset) (n : Z) :=
  Tileset (tile_width t) (tile_height t) (tile_length t) (tiles_capacity t) n
    (pixels t) (character_map_length t) (character_map t) (observer_list t)
    (virtual_columns t) (ref_count t).

Definition with_character_map (t : TCOD_Tileset) (len : Z) (cm : list Z) :=
  Tileset (tile_width t) (tile_height t) (tile_length t) (tiles_capacity t)
    (tiles_count t) (pixels t) len cm (observer_list t)
    (virtual_columns t) (ref_count t).

Definition with_observer_list (t : TCOD_Tileset) (l : list TCOD_TilesetObserver) :=
  Tileset (tile_width t) (tile_height t) (tile_length t) (tiles_capacity t)
    (tiles_count t) (pixels t) (character_map_length t) (character_map t) l
    (virtual_columns t) (ref_count t).

Definition with_virtual_columns (t : TCOD_Tileset) (n : Z) :=
  Tileset (tile_width t) (tile_height t) (tile_length t) (tiles_capacity t)
    (tiles_count t) (pixels t) (character_map_length t) (character_map t)
    (observer_list t) n (ref_count t).

Definition with_ref_count (t : TCOD_Tileset) (n : Z) :=
  Tileset (tile_width t) (tile_height t) (tile_length t) (tiles_capacity t)
    (tiles_count t) (pixels t) (character_map_length t) (character_map t)
    (observer_list t) (virtual_columns t) n.

(** ** Memory primitives *)

Definition INT_MAX : Z := 2147483647.
Definition INT_MIN : Z := -2147483648.

(* Starting sizes of arrays: *)
Definition DEFAULT_TILES_LENGTH : Z := 256.
Definition DEFAULT_CHARMAP_LENGTH : Z := 256.

Section Memory.
Context {A : Type}.

(** [buf[i]] *)
Definition load (buf : list A) (i : Z) : option A :=
  if decide (0 ≤ i) then buf !! Z.to_nat i else None.

(** [buf[i] = v] *)
Definition store (buf : list A) (i : Z) (v : A) : option (list A) :=
  if decide (0 ≤ i < Z.of_nat (length buf))
  then Some (<[Z.to_nat i := v]> buf) else None.

(** [memcpy(dst + doff, src + soff, n * sizeof(A))] *)
Definition memcpy (dst : list A) (doff : Z) (src : list A) (soff n : Z)
  : option (list A) :=
  if decide (0 ≤ n ∧ 0 ≤ doff ∧ doff + n ≤ Z.of_nat (length dst)
             ∧ 0 ≤ soff ∧ soff + n ≤ Z.of_nat (length src))
  then Some (take (Z.to_nat doff) dst
             ++ take (Z.to_nat n) (drop (Z.to_nat soff) src)
             ++ drop (Z.to_nat (doff + n)) dst)
  else None.

(** A successful [realloc(old, n * sizeof(A))]: the common prefix is kept
    and the rest of the new block is indeterminate; [junk] says what
    happens to be there. *)
Definition realloc (junk : nat → A) (old : list A) (n : Z) : list A :=
  take (Z.to_nat n) old
  ++ (junk <$> seq (length old) (Z.to_nat n - length old)).

(** [for (i = lo; i < hi; ++i) body], threading the loop state. *)
Definition for_range {S : Type} (lo hi : Z) (body : Z → S → option S) (s : S)
  : option S :=
  foldl (λ acc i, acc ≫= body i) (Some s) (seqZ lo (hi - lo)).

(** [for (i = lo; i < hi; ++i) buf[i] = v;] *)
Definition fill (buf : list A) (lo hi : Z) (v : A) : option (list A) :=
  for_range lo hi (λ i buf, store buf i v) buf.
End Memory.

(** What the allocator does during one call: for each buffer that the call
    may [realloc], [None] if the allocation fails and otherwise the
    indeterminate contents of fresh memory. *)
Record Allocator := {
  realloc_pixels : option (nat → TCOD_ColorRGBA);
  realloc_charmap : option (nat → Z);
}.

(** ** The functions of [tileset.c]

    A tileset pointer is never [NULL] in the model, so the [if (!tileset)]
    guards of the source have no counterpart. *)

(** The tileset that [TCOD_tileset_new] returns when its [calloc]
    succeeds.  [tile_width * tile_height] is an [int] product in the source:
    it is this product when [in_int (tile_width * tile_height)], and
    overflows otherwise, which the model does not follow. *)
Definition TCOD_tileset_new (tile_width tile_height : Z) : TCOD_Tileset :=
  Tileset tile_width tile_height (tile_width * tile_height) 0 0 [] 0 [] [] 1 1.

Definition TCOD_tileset_get_tile_width_ (tileset : option TCOD_Tileset) : Z :=
  match tileset with Some t => tile_width t | None => 0 end.

Definition TCOD_tileset_get_tile_height_ (tileset : option TCOD_Tileset) : Z :=
  match tileset with Some t => tile_height t | None => 0 end.

Definition TCOD_tileset_get_charmap (tileset : TCOD_Tileset) (codepoint : Z)
  : option Z :=
  if decide (codepoint < 0 ∨ codepoint >= character_map_length tileset)
  then Some (-1)
  else load (character_map tileset) codepoint.

(** [while (codepoint >= new_length) { new_length *= 2; }]: signed overflow
    of the product is undefined.  From a positive length at most 31
    doublings fit in an [int], from a negative one at most 31 as well. *)
Fixpoint double_until (fuel : nat) (codepoint new_length : Z) : option Z :=
  if decide (codepoint >= new_length) then
    match fuel with
    | O => None
    | S fuel =>
        if decide (INT_MIN ≤ new_length * 2 ≤ INT_MAX)
        then double_until fuel codepoint (new_length * 2)
        else None
    end
  else Some new_length.

Definition TCOD_tileset_assign_charmap (mem : option (nat → Z))
    (tileset : TCOD_Tileset) (codepoint tile_id : Z)
  : option (TCOD_Tileset * Z) :=
  if decide (tile_id < 0 ∨ tile_id >= tiles_count tileset)
  then Some (tileset, -1)
  else if decide (codepoint < 0) then Some (tileset, -1)
  else
    let write (tileset : TCOD_Tileset) :=
      cm ← store (character_map tileset) codepoint tile_id;
      Some (with_character_map tileset (character_map_length tileset) cm,
            tile_id) in
    if decide (codepoint >= character_map_length tileset) then
      let new_length := character_map_length tileset in
      let new_length :=
        if decide (new_length = 0) then DEFAULT_CHARMAP_LENGTH
        else new_length in
      new_length ← double_until 64 codepoint new_length;
      match mem with
      | None => Some (tileset, -1)
      | Some junk =>
          let new_charmap := realloc junk (character_map tileset) new_length in
          new_charmap ←
            fill new_charmap (character_map_length tileset) new_length 0;
          write (with_character_map tileset new_length new_charmap)
      end
    else write tileset.

(** [tiles_capacity * 2], the bounds [tiles_capacity * tile_length] and
    [new_capacity * tile_length] of the clearing loop and [tiles_count++] are
    [int] arithmetic in the source (the size passed to [realloc] is a
    [size_t]).  The model takes them in [Z]; they agree with the source
    when [in_int (tiles_capacity * 2)] and the number of pixels of the arena
    after the growth is in the range of [int], see [arena_in_int]. *)
Definition TCOD_tileset_generate_charmap (mem : Allocator)
    (tileset : TCOD_Tileset) (codepoint : Z)
  : option (TCOD_Tileset * Z) :=
  tile_id ← TCOD_tileset_get_charmap tileset codepoint;
  if decide (tile_id > 0) then Some (tileset, tile_id)
  else
    let continue (tileset : TCOD_Tileset) :=
      let tileset :=
        if decide (tiles_count tileset = 0)
        then with_tiles_count tileset 1 (* Keep tile at zero blank. *)
        else tileset in
      let tile_id := tiles_count tileset in
      let tileset := with_tiles_count tileset (tile_id + 1) in
      TCOD_tileset_assign_charmap (realloc_charmap mem)
        tileset codepoint tile_id in
    if decide (tiles_count tileset = tiles_capacity tileset) then
      let new_capacity := tiles_capacity tileset * 2 in
      let new_capacity :=
        if decide (new_capacity = 0) then DEFAULT_TILES_LENGTH
        else new_capacity in
      match realloc_pixels mem with
      | None => Some (tileset, -1)
      | Some junk =>
          let new_pixels :=
            realloc junk (pixels tileset)
              (new_capacity * tile_length tileset) in
          (* Clear allocated tiles. *)
          new_pixels ←
            fill new_pixels
              (tiles_capacity tileset * tile_length tileset)
              (new_capacity * tile_length tileset)
              (RGBA 0 0 0 0);
          continue (with_pixels tileset new_capacity new_pixels)
      end
    else continue tileset.

(** The static [TCOD_tileset_get_tile]: a pointer into [pixels], given as
    an offset, or [NULL].  (An arena that holds tiles is not [NULL], so
    [pixels + offset] is not [NULL] either.)  The offset is an [int]
    product in the source; for a tile in use it is in the range of [int]
    when the number of pixels of the arena is ([arena_in_int]). *)
Definition TCOD_tileset_get_tile (tileset : TCOD_Tileset) (codepoint : Z)
  : option (option Z) :=
  tile_id ← TCOD_tileset_get_charmap tileset codepoint;
  if decide (tile_id < 0)
  then Some None (* No tile for the given codepoint in this tileset. *)
  else Some (Some (tile_length tileset * tile_id)).

(** [buffer] is [None] for a [NULL] buffer; the result gives the status and
    the contents of the buffer after the call. *)
Definition TCOD_tileset_get_tile_ (tileset : TCOD_Tileset) (codepoint : Z)
    (buffer : option (list TCOD_ColorRGBA))
  : option (Z * option (list TCOD_ColorRGBA)) :=
  tile ← TCOD_tileset_get_tile tileset codepoint;
  match tile with
  | None => Some (-1, buffer)
  | Some tile =>
      match buffer with
      | None => Some (0, None) (* buffer is NULL, just return an OK status. *)
      | Some buf =>
          buf ← memcpy buf 0 (pixels tileset) tile (tile_length tileset);
          Some (0, Some buf) (* Tile exists and was copied to buffer. *)
      end
  end.

(** The notification loop of [TCOD_tileset_set_tile_]. *)
Fixpoint notify_observers (it : list TCOD_TilesetObserver)
    (tile_id codepoint : Z) : Z * list Event :=
  match it with
  | [] => (0, [])
  | o :: next =>
      match on_tileset_changed o with
      | None => notify_observers next tile_id codepoint
      | Some hook =>
          let err := hook tile_id codepoint in
          if decide (err ≠ 0)
          then (err, [ChangeHook (self o) tile_id codepoint])
          else
            let '(err, log) := notify_observers next tile_id codepoint in
            (err, ChangeHook (self o) tile_id codepoint :: log)
      end
  end.

(** The offset [tile_length * tile_id] is an [int] product in the source,
    as in [TCOD_tileset_get_tile]. *)
Definition TCOD_tileset_set_tile_ (mem : Allocator) (tileset : TCOD_Tileset)
    (codepoint : Z) (buffer : list TCOD_ColorRGBA)
  : option (TCOD_Tileset * Z * list Event) :=
  tile_id ← TCOD_tileset_get_charmap tileset codepoint;
  '(tileset, tile_id) ←
    (if decide (tile_id < 0)
     then TCOD_tileset_generate_charmap mem tileset codepoint
     else Some (tileset, tile_id));
  if decide (tile_id < 0) then Some (tileset, tile_id, [])
  else
    tile ← memcpy (pixels tileset) (tile_length tileset * tile_id)
                  buffer 0 (tile_length tileset);
    let tileset := with_pixels tileset (tiles_capacity tileset) tile in
    let '(err, log) := notify_observers (observer_list tileset) tile_id codepoint in
    Some (tileset, err, log). (* err = 0: Tile uploaded successfully. *)

(** *** Observers *)

(** [node] is what [calloc] returns for the new node.  The source uses the
    result without a check, so a failed allocation is a null dereference. *)
Definition TCOD_tileset_observer_new (node : option addr)
    (tileset : TCOD_Tileset) : option (TCOD_Tileset * addr) :=
  observer ← node;
  Some (with_observer_list tileset
          (Observer observer None false :: observer_list tileset),
        observer).

(** The caller of [TCOD_tileset_observer_new] fills in the hooks of the node
    it got back: two plain field writes through the pointer. *)
Fixpoint install_hooks (it : list TCOD_TilesetObserver) (observer : addr)
    (changed : option (Z → Z → Z)) (deleted : bool)
  : list TCOD_TilesetObserver :=
  match it with
  | [] => []
  | o :: next =>
      if decide (self o = observer)
      then Observer observer changed deleted :: next
      else o :: install_hooks next observer changed deleted
  end.

Definition observer_set_hooks (tileset : TCOD_Tileset) (observer : addr)
    (changed : option (Z → Z → Z)) (deleted : bool) : TCOD_Tileset :=
  with_observer_list tileset
    (install_hooks (observer_list tileset) observer changed deleted).

(** The scan of [TCOD_tileset_observer_delete]: the first node whose address
    is [observer] is unlinked ([*it = observer->next]). *)
Fixpoint unlink (it : list TCOD_TilesetObserver) (observer : addr)
  : option (TCOD_TilesetObserver * list TCOD_TilesetObserver) :=
  match it with
  | [] => None
  | o :: next =>
      if decide (self o = observer) then Some (o, next)
      else '(found, rest) ← unlink next observer; Some (found, o :: rest)
  end.

(** [tileset] is [observer->tileset]. *)
Definition TCOD_tileset_observer_delete (tileset : TCOD_Tileset)
    (observer : addr) : TCOD_Tileset * list Event :=
  match unlink (observer_list tileset) observer with
  | None => (tileset, [])
  | Some (o, rest) =>
      (with_observer_list tileset rest,
       (if on_observer_delete o then [DeleteHook (self o)] else [])
       ++ [Free (ObserverNode (self o))])
  end.

(** [while (tileset->observer_list) { ...delete(tileset->observer_list); }]
    with a bound on the number of iterations; [None] is a loop that did not
    finish within the bound. *)
Fixpoint delete_observers (fuel : nat) (tileset : TCOD_Tileset)
  : option (TCOD_Tileset * list Event) :=
  match observer_list tileset with
  | [] => Some (tileset, [])
  | o :: _ =>
      match fuel with
      | O => None
      | S fuel =>
          let '(tileset, log) :=
            TCOD_tileset_observer_delete tileset (self o) in
          '(tileset, log') ← delete_observers fuel tileset;
          Some (tileset, log ++ log')
      end
  end.

(** The result is the tileset if it is still alive, [None] once freed. *)
Definition TCOD_tileset_delete (tileset : TCOD_Tileset)
  : option (option TCOD_Tileset * list Event) :=
  let tileset := with_ref_count tileset (ref_count tileset - 1) in
  if decide (ref_count tileset ≠ 0) then Some (Some tileset, [])
  else
    '(_, log) ← delete_observers (length (observer_list tileset)) tileset;
    Some (None, log ++ [Free PixelArena; Free Charmap; Free TilesetStruct]).

(** *** Loading a font atlas *)

(** Conversion of an [int] to [unsigned int]. *)
Definition to_unsigned (x : Z) : Z := x mod 2 ^ 32.

(** The first pair of loops of [TCOD_tileset_load].  [color_key] is either
    [&font[0]] ([true]) or [NULL] ([false]). *)
Definition detect_color_key (font : list TCOD_ColorRGBA) (font_width : Z)
    (tileset : TCOD_Tileset) : option bool :=
  for_range 0 (tile_height tileset) (λ y color_key,
    for_range 0 (tile_width tileset) (λ x color_key,
      pixel ← load font (y * font_width + x);
      if color_key : bool then
        key ← load font 0;
        if decide (r pixel ≠ r key ∨ g pixel ≠ g key
                   ∨ b pixel ≠ b key ∨ a pixel ≠ a key)
        then Some false else Some true
      else Some false) color_key) true.

(** The body of the loop over the tiles of the font: analyse tile [i], then
    normalize it and copy it to [pixels]. *)
Definition load_tile (font : list TCOD_ColorRGBA) (font_width columns : Z)
    (tileset : TCOD_Tileset) (color_key : bool) (i : Z)
    (pixels : list TCOD_ColorRGBA) : option (list TCOD_ColorRGBA) :=
  let font_y := i `quot` columns * tile_height tileset in
  let font_x := i `rem` columns * tile_width tileset in
  let font_i := font_y * font_width + font_x in
  let tile_i := i * tile_length tileset in
  (* Analyse a tile from the font. *)
  '(has_color, has_alpha) ←
    for_range 0 (tile_height tileset) (λ y flags,
      for_range 0 (tile_width tileset) (λ x '(has_color, has_alpha),
        pixel ← load font (font_i + y * font_width + x);
        let has_alpha :=
          if decide (a pixel ≠ 255) then true else has_alpha in
        let has_color :=
          if decide (r pixel ≠ g pixel ∨ r pixel ≠ b pixel) then true
          else has_color in
        Some (has_color, has_alpha)) flags) (false, false);
  (* Normalize and copy the tile. *)
  for_range 0 (tile_height tileset) (λ y pixels,
    for_range 0 (tile_width tileset) (λ x pixels,
      pixel ← load font (font_i + y * font_width + x);
      (* Convert any grey-scale tiles to white-with-alpha. *)
      let pixel :=
        if negb has_color && negb has_alpha
        then RGBA 255 255 255 (r pixel) else pixel in
      (* Set key-color pixels to zero. *)
      pixel ←
        (if color_key then
           key ← load font 0;
           if decide (r key = r pixel ∧ g key = g pixel
                      ∧ b key = b pixel ∧ a key = a pixel)
           then Some (RGBA 0 0 0 0) else Some pixel
         else Some pixel);
      store pixels (tile_i + y * tile_width tileset + x) pixel) pixels) pixels.

(** [decoded] is the result of [lodepng_decode32_file]: [None] for a decoding
    error, else the pixels, the width and the height of the image.
    [malloc_pixels] and [mem] are the allocator's answers for the pixel
    arena and for the charmap in each round of the last loop.  The inner
    result is [None] for a [NULL] return.  Divisions by a zero column or row
    count are undefined.  [columns * rows], the offsets [font_y], [font_x],
    [font_i], [tile_i] and the indices are [int] (or [unsigned]) arithmetic
    in the source and are taken in [Z] here; they agree with the source
    for an image and a grid within [atlas_in_int]. *)
Definition TCOD_tileset_load
    (decoded : option (list TCOD_ColorRGBA * Z * Z))
    (malloc_pixels : option (nat → TCOD_ColorRGBA))
    (mem : Z → option (nat → Z))
    (columns rows n : Z) (charmap : option (list Z))
  : option (option TCOD_Tileset) :=
  let font_tiles := columns * rows in
  match decoded with
  | None => Some None (* Error decoding file. *)
  | Some (font, font_width, font_height) =>
      if decide (to_unsigned columns = 0 ∨ to_unsigned rows = 0) then None
      else
        let tileset :=
          TCOD_tileset_new (font_width `quot` to_unsigned columns)
                           (font_height `quot` to_unsigned rows) in
        let tileset := with_virtual_columns tileset columns in
        match malloc_pixels with
        | None => Some None
        | Some junk =>
            let tileset :=
              with_pixels tileset (tiles_capacity tileset)
                (realloc junk [] (tile_length tileset * font_tiles)) in
            let tileset :=
              with_tiles_count
                (with_pixels tileset font_tiles (pixels tileset))
                font_tiles in
            (* Check for a color key in the first tile. *)
            color_key ← detect_color_key font font_width tileset;
            new_pixels ←
              for_range 0 font_tiles
                (load_tile font font_width columns tileset color_key)
                (pixels tileset);
            let tileset :=
              with_pixels tileset (tiles_capacity tileset) new_pixels in
            let n := if charmap is Some _ then n else font_tiles in
            for_range 0 n (λ i (result : option TCOD_Tileset),
              match result with
              | None => Some None
              | Some tileset =>
                  codepoint ←
                    (match charmap with
                     | Some charmap => load charmap i
                     | None => Some i
                     end);
                  '(tileset, status) ←
                    TCOD_tileset_assign_charmap (mem i) tileset codepoint i;
                  if decide (status < 0) then Some None
                  else Some (Some tileset)
              end) (Some tileset)
        end
  end.

(** ** Sequences of calls on one tileset *)

Inductive call :=
| Assign (mem : option (nat → Z)) (codepoint tile_id : Z)
| SetTile (mem : Allocator) (codepoint : Z) (buffer : list TCOD_ColorRGBA)
| Attach (node : addr)
| SetHooks (observer : addr) (changed : option (Z → Z → Z)) (deleted : bool)
| Detach (observer : addr).

Definition run_call (k : call) (tileset : TCOD_Tileset)
  : option TCOD_Tileset :=
  match k with
  | Assign mem codepoint tile_id =>
      fst <$> TCOD_tileset_assign_charmap mem tileset codepoint tile_id
  | SetTile mem codepoint buffer =>
      (λ res, fst (fst res))
        <$> TCOD_tileset_set_tile_ mem tileset codepoint buffer
  | Attach node => fst <$> TCOD_tileset_observer_new (Some node) tileset
  | SetHooks observer changed deleted =>
      Some (observer_set_hooks tileset observer changed deleted)
  | Detach observer => Some (fst (TCOD_tileset_observer_delete tileset observer))
  end.

Fixpoint run (calls : list call) (tileset : TCOD_Tileset)
  : option TCOD_Tileset :=
  match calls with
  | [] => Some tileset
  | k :: calls => run_call k tileset ≫= run calls
  end.

(** The codepoint a call writes a mapping or a tile for, if any. *)
Definition call_codepoint (k : call) : option Z :=
  match k with
  | Assign _ codepoint _ | SetTile _ codepoint _ => Some codepoint
  | _ => None
  end.

(** ** Well-formed tilesets

    The shape every tileset built by this file's functions has: the arena
    holds [tiles_capacity] blocks of [tile_length] pixels, the charmap has
    its recorded length and maps into the tiles in use. *)
Record tileset_wf (t : TCOD_Tileset) : Prop := {
  wf_tile_length : 0 ≤ tile_length t;
  wf_tiles_count : 0 ≤ tiles_count t ≤ tiles_capacity t;
  wf_pixels : Z.of_nat (length (pixels t)) = tiles_capacity t * tile_length t;
  wf_character_map :
    Z.of_nat (length (character_map t)) = character_map_length t;
  wf_entries : Forall (λ v, 0 ≤ v < tiles_count t) (character_map t);
  wf_blank : tiles_count t = 0 → tiles_capacity t = 0;
}.

(** The fields that only [TCOD_tileset_new], the observer functions and
    [TCOD_tileset_delete] write. *)
Definition same_frame (t t' : TCOD_Tileset) : Prop :=
  tile_width t' = tile_width t ∧ tile_height t' = tile_height t
  ∧ tile_length t' = tile_length t ∧ observer_list t' = observer_list t
  ∧ virtual_columns t' = virtual_columns t ∧ ref_count t' = ref_count t.

(** The block of pixels of a tile id. *)
Definition tile_block (t : TCOD_Tileset) (tile_id : Z) : list TCOD_ColorRGBA :=
  take (Z.to_nat (tile_length t))
       (drop (Z.to_nat (tile_length t * tile_id)) (pixels t)).

(** The two ways [TCOD_tileset_assign_charmap] succeeds, and the way it
    fails. *)
Inductive assign_outcome (mem : option (nat → Z)) (t : TCOD_Tileset)
    (codepoint tile_id : Z) : TCOD_Tileset → Z → Prop :=
| assign_rejected :
    (tile_id < 0 ∨ tile_id >= tiles_count t) ∨ codepoint < 0
    ∨ (codepoint >= character_map_length t ∧ mem = None) →
    assign_outcome mem t codepoint tile_id t (-1)
| assign_in_place :
    0 ≤ tile_id < tiles_count t →
    0 ≤ codepoint < character_map_length t →
    codepoint < Z.of_nat (length (character_map t)) →
    assign_outcome mem t codepoint tile_id
      (with_character_map t (character_map_length t)
         (<[Z.to_nat codepoint := tile_id]> (character_map t)))
      tile_id
| assign_grown junk new_length cm (k : nat) :
    0 ≤ tile_id < tiles_count t →
    0 ≤ character_map_length t ≤ codepoint →
    codepoint < new_length →
    mem = Some junk →
    new_length
    = (if decide (character_map_length t = 0) then DEFAULT_CHARMAP_LENGTH
       else character_map_length t) * 2 ^ Z.of_nat k →
    fill (realloc junk (character_map t) new_length)
         (character_map_length t) new_length 0 = Some cm →
    assign_outcome mem t codepoint tile_id
      (with_character_map t new_length (<[Z.to_nat codepoint := tile_id]> cm))
      tile_id.

(** The arena after the capacity check of [TCOD_tileset_generate_charmap]:
    kept as it is, or reallocated with the new part cleared. *)
Definition grown_capacity (t : TCOD_Tileset) : Z :=
  if decide (tiles_capacity t * 2 = 0) then DEFAULT_TILES_LENGTH
  else tiles_capacity t * 2.

Inductive arena_outcome (mem : Allocator) (t : TCOD_Tileset)
  : TCOD_Tileset → Prop :=
| arena_kept :
    tiles_count t ≠ tiles_capacity t → arena_outcome mem t t
| arena_grown junk px :
    tiles_count t = tiles_capacity t →
    realloc_pixels mem = Some junk →
    fill (realloc junk (pixels t) (grown_capacity t * tile_length t))
         (tiles_capacity t * tile_length t)
         (grown_capacity t * tile_length t) (RGBA 0 0 0 0) = Some px →
    arena_outcome mem t (with_pixels t (grown_capacity t) px).

(** The tile id that [TCOD_tileset_generate_charmap] hands out and the
    tileset with the id taken. *)
Definition next_tile_id (t : TCOD_Tileset) : Z :=
  if decide (tiles_count t = 0) then 1 else tiles_count t.

Definition take_tile_id (t : TCOD_Tileset) : TCOD_Tileset :=
  with_tiles_count t (next_tile_id t + 1).

(** The hook invocations of a notification that visits all of [it]. *)
Definition notified (it : list TCOD_TilesetObserver) (tile_id codepoint : Z)
  : list Event :=
  (λ o, ChangeHook (self o) tile_id codepoint)
    <$> filter (λ o, is_Some (on_tileset_changed o)) it.

(** ** Scenarios

    An allocator that never fails and hands out memory full of leftovers. *)
Definition leftovers : Allocator :=
  {| realloc_pixels := Some (λ _, RGBA 1 2 3 4);
     realloc_charmap := Some (λ _, 77) |}.

(** Scenario A of the specification: an 8 by 8 block of opaque grey. *)
Definition opaque_gray_8x8 : list TCOD_ColorRGBA :=
  replicate 64 (RGBA 128 128 128 255).

(** A tileset with one real tile, for codepoint 300, and codepoint 65
    assigned to the blank tile by hand. *)
Definition blank_assigned : option TCOD_Tileset :=
  '(t, _, _) ←
    TCOD_tileset_set_tile_ leftovers (TCOD_tileset_new 1 1) 300
      [RGBA 10 20 30 40];
  '(t, _) ← TCOD_tileset_assign_charmap None t 65 0;
  Some t.

(** Observers [O1] then [O2] attached to a tileset, each with its change
    hook and a deletion hook. *)
Definition attach_two (t : TCOD_Tileset) (o1 o2 : addr)
    (hook1 hook2 : Z → Z → Z) : option TCOD_Tileset :=
  '(t, p1) ← TCOD_tileset_observer_new (Some o1) t;
  let t := observer_set_hooks t p1 (Some hook1) true in
  '(t, p2) ← TCOD_tileset_observer_new (Some o2) t;
  Some (observer_set_hooks t p2 (Some hook2) true).

(** What the teardown of the observers in [it] shows, front to back: for
    each node its deletion hook, if it has one, then the [free] of the
    node. *)
Definition teardown (it : list TCOD_TilesetObserver) : list Event :=
  o ← it;
  (if on_observer_delete o then [DeleteHook (self o)] else [])
  ++ [Free (ObserverNode (self o))].

(** How often an event occurs in a record. *)
Definition occurrences (e : Event) (log : list Event) : nat :=
  length (filter (λ e', e' = e) log).

(** Capacities the write path can reach from an empty arena. *)
Definition doubled_from_floor (capacity : Z) : Prop :=
  capacity = 0 ∨ ∃ k : nat, capacity = DEFAULT_TILES_LENGTH * 2 ^ Z.of_nat k.

(** ** The atlas, pixel by pixel *)

(** The tileset of [TCOD_tileset_load] when its loops start. *)
Definition atlas_tileset (font_width font_height columns rows : Z)
    (pixels : list TCOD_ColorRGBA) : TCOD_Tileset :=
  Tileset (font_width `quot` to_unsigned columns)
          (font_height `quot` to_unsigned rows)
          (font_width `quot` to_unsigned columns
           * (font_height `quot` to_unsigned rows))
          (columns * rows) (columns * rows) pixels 0 [] [] columns 1.

(** Pixel [(x, y)] of cell [i] of the image, as both inner loops of
    [TCOD_tileset_load] address it. *)
Definition font_pixel (font : list TCOD_ColorRGBA) (font_width columns : Z)
    (t : TCOD_Tileset) (i y x : Z) : option TCOD_ColorRGBA :=
  load font (i `quot` columns * tile_height t * font_width
             + i `rem` columns * tile_width t + y * font_width + x).


(** Step 4 of the loader on one pixel of a cell. *)
Definition normalize (gray_cell : bool) (p : TCOD_ColorRGBA) : TCOD_ColorRGBA :=
  if gray_cell then RGBA 255 255 255 (r p) else p.

(** Step 5 of the loader on one pixel, [key] being the detected key. *)
Definition substitute_key (key : option TCOD_ColorRGBA) (p : TCOD_ColorRGBA)
  : TCOD_ColorRGBA :=
  match key with
  | Some k => if decide (k = p) then RGBA 0 0 0 0 else p
  | None => p
  end.

(** A one-pixel black image and a two-pixel image whose second cell is
    opaque grey. *)
Definition black_1x1 : list TCOD_ColorRGBA := [RGBA 0 0 0 255].
Definition white_then_gray_2x1 : list TCOD_ColorRGBA :=
  [RGBA 255 255 255 128; RGBA 128 128 128 255].

Definition load_identity (font : list TCOD_ColorRGBA) (font_width font_height
    columns rows : Z) : option (option TCOD_Tileset) :=
  TCOD_tileset_load (Some (font, font_width, font_height))
    (Some (λ _, RGBA 1 2 3 4)) (λ _, Some (λ _, 77)) columns rows 0 None.


(** What the key test makes of a normalized pixel. *)
Definition keyed (font : list TCOD_ColorRGBA) (color_key : bool)
    (p : TCOD_ColorRGBA) : option TCOD_ColorRGBA :=
  if color_key then key ← load font 0; Some (substitute_key (Some key) p)
  else Some p.

(** ** Further notions used in statements *)

(** The length the doubling loop of [TCOD_tileset_assign_charmap] starts
    from. *)
Definition charmap_start_length (t : TCOD_Tileset) : Z :=
  if decide (character_map_length t = 0) then DEFAULT_CHARMAP_LENGTH
  else character_map_length t.

(** Charmap lengths that doubling reaches from an empty charmap. *)
Definition charmap_length_doubled (len : Z) : Prop :=
  len = 0 ∨ ∃ k : nat, len = DEFAULT_CHARMAP_LENGTH * 2 ^ Z.of_nat k.

(** [charmap ? charmap[i] : i], the codepoint of cell [i] in the last loop
    of [TCOD_tileset_load]. *)
Definition atlas_codepoint (charmap : option (list Z)) (i : Z) : option Z :=
  match charmap with
  | Some charmap => load charmap i
  | None => Some i
  end.


(** The number of rounds of the last loop of [TCOD_tileset_load]: [n] with
    a charmap, the number of cells without. *)
Definition charmap_entries (charmap : option (list Z)) (n columns rows : Z)
  : Z :=
  if charmap is Some _ then n else columns * rows.

(** One round of the last loop of [TCOD_tileset_load]; [None] stands for the
    [NULL] returned after a failed assignment. *)
Definition assign_cell (mem : Z → option (nat → Z))
    (charmap : option (list Z)) (i : Z) (result : option TCOD_Tileset)
  : option (option TCOD_Tileset) :=
  match result with
  | None => Some None
  | Some tileset =>
      codepoint ← atlas_codepoint charmap i;
      '(tileset, status) ←
        TCOD_tileset_assign_charmap (mem i) tileset codepoint i;
      if decide (status < 0) then Some None else Some (Some tileset)
  end.

(** ** The range of [int]

    The conditions under which the products that the model takes in [Z] are
    the [int] values of the source. *)
Definition in_int (x : Z) : Prop := INT_MIN ≤ x ≤ INT_MAX.

(** The [int] products of [TCOD_tileset_generate_charmap],
    [TCOD_tileset_get_tile] and [TCOD_tileset_set_tile_] on a tileset:
    [tiles_capacity * 2], and [tiles_capacity * tile_length], the bound of
    the clearing loop, below which the offset [tile_length * tile_id] of
    every tile of the arena lies. *)
Definition arena_in_int (t : TCOD_Tileset) : Prop :=
  in_int (tiles_capacity t * 2) ∧ in_int (tiles_capacity t * tile_length t).

(** The image and the grid of [TCOD_tileset_load]: a grid of at least one
    cell, [columns * rows] in the range of [int], and an image whose sizes
    and number of pixels are in the range of [int], so that the conversions
    between [unsigned] and [int] keep the values and the tile sizes, the
    offsets [font_y], [font_x], [font_i], [tile_i] and the indices into the
    image and the arena, all of them at most [font_width * font_height], are
    in range. *)
Definition atlas_in_int (font_width font_height columns rows : Z) : Prop :=
  0 < columns ∧ 0 < rows ∧ in_int (columns * rows)
  ∧ 0 ≤ font_width ∧ 0 ≤ font_height
  ∧ in_int font_width ∧ in_int font_height
  ∧ in_int (font_width * font_height).

(** ** Lemmas about the memory primitives *)

Section MemoryLemmas.
Context {A : Type}.
Implicit Types (buf dst src old : list A) (v : A) (junk : nat → A).

Lemma load_Some buf i v :
  load buf i = Some v ↔ 0 ≤ i ∧ buf !! Z.to_nat i = Some v.
Proof.
  unfold load. destruct (decide (0 ≤ i)); split; try done.
  - by intros [].
  - by intros [].
Qed.

Lemma load_lt buf i v : load buf i = Some v → 0 ≤ i < Z.of_nat (length buf).
Proof.
  rewrite load_Some. intros [? Hl]. apply lookup_lt_Some in Hl. lia.
Qed.

Lemma load_is_Some buf i : 0 ≤ i < Z.of_nat (length buf) → is_Some (load buf i).
Proof.
  intros ?. unfold load. rewrite decide_True by lia.
  apply lookup_lt_is_Some. lia.
Qed.

Lemma store_Some buf i v buf' :
  store buf i v = Some buf' ↔
  0 ≤ i < Z.of_nat (length buf) ∧ buf' = <[Z.to_nat i := v]> buf.
Proof.
  unfold store. destruct (decide (0 ≤ i < Z.of_nat (length buf))); split.
  - intros [= <-]. done.
  - intros [_ ->]. done.
  - done.
  - by intros [].
Qed.


Lemma store_length buf i v buf' :
  store buf i v = Some buf' → length buf' = length buf.
Proof. rewrite store_Some. intros [_ ->]. apply length_insert. Qed.

Lemma memcpy_Some dst doff src soff n dst' :
  memcpy dst doff src soff n = Some dst' ↔
  (0 ≤ n ∧ 0 ≤ doff ∧ doff + n ≤ Z.of_nat (length dst)
   ∧ 0 ≤ soff ∧ soff + n ≤ Z.of_nat (length src))
  ∧ dst' = take (Z.to_nat doff) dst
           ++ take (Z.to_nat n) (drop (Z.to_nat soff) src)
           ++ drop (Z.to_nat (doff + n)) dst.
Proof.
  unfold memcpy. case_decide; split.
  - intros [= <-]. done.
  - intros [_ ->]. done.
  - done.
  - by intros [].
Qed.

Lemma memcpy_length dst doff src soff n dst' :
  memcpy dst doff src soff n = Some dst' → length dst' = length dst.
Proof.
  rewrite memcpy_Some. intros [? ->].
  rewrite !length_app, !length_take, !length_drop. lia.
Qed.

(** Reading back what [memcpy] wrote. *)
Lemma take_drop_memcpy dst doff src soff n dst' :
  memcpy dst doff src soff n = Some dst' →
  take (Z.to_nat n) (drop (Z.to_nat doff) dst')
  = take (Z.to_nat n) (drop (Z.to_nat soff) src).
Proof.
  rewrite memcpy_Some. intros [? ->].
  rewrite drop_app_length'; last (rewrite length_take; lia).
  rewrite take_app_length'; first done.
  rewrite length_take, length_drop. lia.
Qed.

(** [memcpy] leaves the cells outside the destination range alone. *)
Lemma lookup_memcpy_ne dst doff src soff n dst' (j : nat) :
  memcpy dst doff src soff n = Some dst' →
  (Z.of_nat j < doff ∨ doff + n ≤ Z.of_nat j) →
  dst' !! j = dst !! j.
Proof.
  rewrite memcpy_Some. intros [? ->] Hj.
  destruct (decide (Z.of_nat j < doff)).
  - rewrite lookup_app_l by (rewrite length_take; lia).
    apply lookup_take_lt. lia.
  - rewrite lookup_app_r by (rewrite length_take; lia).
    rewrite lookup_app_r by (rewrite !length_take, length_drop; lia).
    rewrite lookup_drop, !length_take, length_drop. f_equal. lia.
Qed.

Lemma realloc_length junk old n :
  length (realloc junk old n) = Z.to_nat n.
Proof.
  unfold realloc. rewrite length_app, length_take, length_fmap, length_seq.
  lia.
Qed.

Lemma realloc_lookup_old junk old n (j : nat) :
  (j < length old)%nat → Z.of_nat j < n →
  realloc junk old n !! j = old !! j.
Proof.
  intros ??. unfold realloc.
  rewrite lookup_app_l by (rewrite length_take; lia).
  apply lookup_take_lt. lia.
Qed.

Lemma for_range_nil {S} lo hi (body : Z → S → option S) s :
  hi ≤ lo → for_range lo hi body s = Some s.
Proof. intros ?. unfold for_range. by rewrite seqZ_nil by lia. Qed.

Lemma for_range_snoc {S} lo hi (body : Z → S → option S) s :
  lo ≤ hi →
  for_range lo (hi + 1) body s = for_range lo hi body s ≫= body hi.
Proof.
  intros ?. unfold for_range.
  replace (hi + 1 - lo) with ((hi - lo) + 1) by lia.
  rewrite seqZ_app by lia. rewrite foldl_app. simpl.
  by replace (lo + (hi - lo)) with hi by lia.
Qed.

(** The invariant rule for [for] loops. *)
Lemma for_range_ind {S} (P : Z → S → Prop) lo hi
    (body : Z → S → option S) s s' :
  lo ≤ hi →
  P lo s →
  (∀ i s1 s2, lo ≤ i < hi → P i s1 → body i s1 = Some s2 → P (i + 1) s2) →
  for_range lo hi body s = Some s' →
  P hi s'.
Proof.
  intros Hle H0 Hstep.
  assert (∀ x, lo ≤ x → x ≤ hi →
            ∀ s', for_range lo x body s = Some s' → P x s') as Hall.
  { intros x Hx. pattern x. apply (Zlt_lower_bound_ind _ lo); last done.
    clear x Hx. intros x IH Hx Hxhi s1 Hrun.
    destruct (decide (x = lo)) as [->|].
    { rewrite for_range_nil in Hrun by lia. by simplify_eq. }
    assert (x = (x - 1) + 1) as Hx1 by lia.
    rewrite Hx1, for_range_snoc in Hrun by lia.
    destruct (for_range lo (x - 1) body s) as [s0|] eqn:E; simplify_eq/=.
    rewrite Hx1. eapply Hstep; [| |exact Hrun]; [lia|].
    apply IH; [lia|lia|done]. }
  apply Hall; lia.
Qed.

(** A loop whose body cannot fail under its invariant does not fail. *)
Lemma for_range_total {S} (P : Z → S → Prop) lo hi
    (body : Z → S → option S) s :
  P lo s →
  (∀ i s1, lo ≤ i < hi → P i s1 →
     ∃ s2, body i s1 = Some s2 ∧ P (i + 1) s2) →
  ∃ s', for_range lo hi body s = Some s' ∧ (lo ≤ hi → P hi s').
Proof.
  intros H0 Hstep.
  destruct (decide (hi ≤ lo)) as [|Hlt].
  { exists s. rewrite for_range_nil by lia. split; [done|].
    intros ?. by replace hi with lo by lia. }
  assert (∀ x, lo ≤ x → x ≤ hi →
            ∃ s', for_range lo x body s = Some s' ∧ P x s') as Hall.
  { intros x Hx. pattern x. apply (Zlt_lower_bound_ind _ lo); last done.
    clear x Hx. intros x IH Hx Hxhi.
    destruct (decide (x = lo)) as [->|].
    { exists s. by rewrite for_range_nil by lia. }
    destruct (IH (x - 1)) as (s1 & E1 & HP1); [lia..|].
    destruct (Hstep (x - 1) s1) as (s2 & E2 & HP2); [lia|done|].
    exists s2. replace x with ((x - 1) + 1) at 1 by lia.
    rewrite for_range_snoc, E1 by lia. simpl.
    split; [done|]. by replace x with (x - 1 + 1) by lia. }
  destruct (Hall hi) as (s' & ? & ?); [lia..|]. eauto.
Qed.

Lemma fill_Some buf lo hi v buf' :
  fill buf lo hi v = Some buf' →
  length buf' = length buf
  ∧ ∀ j : nat, buf' !! j
      = if decide (lo ≤ Z.of_nat j < hi) then Some v else buf !! j.
Proof.
  intros Hfill. destruct (decide (hi ≤ lo)) as [|Hlt].
  { unfold fill in Hfill. rewrite for_range_nil in Hfill by done.
    simplify_eq. split; [done|]. intros j. by rewrite decide_False by lia. }
  unfold fill in Hfill.
  refine (for_range_ind (λ i b,
    length b = length buf
    ∧ ∀ j : nat, b !! j
        = if decide (lo ≤ Z.of_nat j < i) then Some v else buf !! j)
    lo hi _ buf buf' _ _ _ Hfill).
  - lia.
  - split; [done|]. intros j. by rewrite decide_False by lia.
  - intros i b1 b2 Hi [Hlen Hb] [Hr ->]%store_Some.
    split; [by rewrite length_insert|]. intros j.
    destruct (decide (Z.of_nat j = i)) as [<-|Hne].
    + rewrite Nat2Z.id, list_lookup_insert_eq by lia.
      by rewrite decide_True by lia.
    + rewrite list_lookup_insert_ne by lia. rewrite Hb.
      repeat case_decide; done || lia.
Qed.

Lemma fill_is_Some buf lo hi v :
  0 ≤ lo → hi ≤ Z.of_nat (length buf) → is_Some (fill buf lo hi v).
Proof.
  intros ??. unfold fill.
  destruct (for_range_total (λ _ b, length b = length buf) lo hi
              (λ i b, store b i v) buf) as (b' & -> & _); [done| |done].
  intros i b1 ? Hlen. eexists. split.
  - apply store_Some. split; [lia|done].
  - by rewrite length_insert.
Qed.
End MemoryLemmas.

(** ** The charmap *)

Lemma double_until_Some fuel codepoint len len' :
  double_until fuel codepoint len = Some len' →
  codepoint < len' ∧ ∃ k : nat, len' = len * 2 ^ Z.of_nat k.
Proof.
  revert len. induction fuel as [|fuel IH]; intros len; simpl.
  - case_decide; [done|]. intros [= <-]. split; [lia|].
    exists 0%nat. simpl. lia.
  - case_decide.
    + case_decide; [|done]. intros (? & k & ->)%IH. split; [done|].
      exists (S k). rewrite Nat2Z.inj_succ, Z.pow_succ_r by lia. lia.
    + intros [= <-]. split; [lia|]. exists 0%nat. simpl. lia.
Qed.

Lemma double_until_is_Some fuel codepoint len :
  0 < len → codepoint < len * 2 ^ Z.of_nat fuel → codepoint < 2 ^ 30 →
  is_Some (double_until fuel codepoint len).
Proof.
  revert len. induction fuel as [|fuel IH]; intros len Hlen Hc Hmax; simpl.
  - simpl in Hc. rewrite decide_False by lia. done.
  - case_decide; [|done].
    rewrite decide_True by (unfold INT_MIN, INT_MAX; lia).
    apply IH; [lia| |done].
    rewrite Nat2Z.inj_succ, Z.pow_succ_r in Hc by lia. lia.
Qed.

Lemma get_charmap_Some t codepoint v :
  TCOD_tileset_get_charmap t codepoint = Some v →
  (v = -1 ∧ (codepoint < 0 ∨ codepoint >= character_map_length t))
  ∨ (0 ≤ codepoint < character_map_length t
     ∧ load (character_map t) codepoint = Some v).
Proof.
  unfold TCOD_tileset_get_charmap. case_decide.
  - intros [= <-]. by left.
  - intros ?. right. split; [lia|done].
Qed.

Lemma get_charmap_in_range t codepoint :
  0 ≤ codepoint < character_map_length t →
  TCOD_tileset_get_charmap t codepoint = load (character_map t) codepoint.
Proof.
  intros ?. unfold TCOD_tileset_get_charmap. by rewrite decide_False by lia.
Qed.

Lemma assign_charmap_inv mem t codepoint tile_id t' ret :
  TCOD_tileset_assign_charmap mem t codepoint tile_id = Some (t', ret) →
  assign_outcome mem t codepoint tile_id t' ret.
Proof.
  unfold TCOD_tileset_assign_charmap.
  case_decide; [intros [= <- <-]; constructor; tauto|].
  case_decide; [intros [= <- <-]; constructor; tauto|].
  case_decide as Hgrow.
  - destruct (double_until _ _ _) as [new_length|] eqn:Hd; [|done]. simpl.
    apply double_until_Some in Hd as [Hlt [k Hk]].
    destruct mem as [junk|]; [|intros [= <- <-]; constructor; tauto].
    destruct (fill _ _ _ _) as [cm|] eqn:Hfill; [|done]. simpl.
    destruct (store cm codepoint tile_id) as [cm'|] eqn:Hst; [|done]. simpl.
    intros [= <- <-]. apply store_Some in Hst as [_ ->].
    unfold with_character_map at 1; simpl.
    assert (0 ≤ character_map_length t).
    { destruct (decide (0 ≤ character_map_length t)); [done|].
      rewrite decide_False in Hk by lia.
      assert (0 < 2 ^ Z.of_nat k) by (apply Z.pow_pos_nonneg; lia). nia. }
    eapply (assign_grown _ _ _ _ junk new_length cm k); eauto; lia.
  - destruct (store _ codepoint tile_id) as [cm'|] eqn:Hst; [|done]. simpl.
    intros [= <- <-]. apply store_Some in Hst as [? ->].
    apply assign_in_place; lia.
Qed.

(** For a codepoint below [2^30] on a well-formed tileset the assignment is
    well defined (no overflow, no access out of bounds). *)
Lemma assign_charmap_defined mem t codepoint tile_id :
  tileset_wf t → codepoint < 2 ^ 30 →
  is_Some (TCOD_tileset_assign_charmap mem t codepoint tile_id).
Proof.
  intros Hwf Hc. unfold TCOD_tileset_assign_charmap.
  case_decide; [done|]. case_decide; [done|].
  pose proof (wf_character_map t Hwf) as Hlen.
  case_decide as Hgrow.
  - destruct (double_until_is_Some 64 codepoint
                (if decide (character_map_length t = 0)
                 then DEFAULT_CHARMAP_LENGTH else character_map_length t))
      as [new_length Hd].
    { case_decide; [done|lia]. }
    { assert (2 ^ 30 < 1 * 2 ^ Z.of_nat 64) by done.
      case_decide; unfold DEFAULT_CHARMAP_LENGTH; nia. }
    { done. }
    rewrite Hd. simpl. destruct mem as [junk|]; [|done].
    pose proof Hd as [Hlt [k Hk]]%double_until_Some.
    destruct (fill_is_Some (realloc junk (character_map t) new_length)
                (character_map_length t) new_length 0) as [cm Hfill].
    { lia. }
    { rewrite realloc_length. lia. }
    rewrite Hfill. simpl.
    apply fill_Some in Hfill as [Hl _]. rewrite realloc_length in Hl.
    unfold store. rewrite decide_True by lia. done.
  - unfold store. rewrite decide_True by lia. done.
Qed.

(** [TCOD_tileset_assign_charmap] touches the charmap only. *)
Lemma assign_charmap_frame mem t codepoint tile_id t' ret :
  TCOD_tileset_assign_charmap mem t codepoint tile_id = Some (t', ret) →
  t' = with_character_map t (character_map_length t') (character_map t').
Proof.
  intros H%assign_charmap_inv. destruct H; try done. by destruct t.
Qed.

Lemma assign_charmap_failed mem t codepoint tile_id t' ret :
  TCOD_tileset_assign_charmap mem t codepoint tile_id = Some (t', ret) →
  ret < 0 → t' = t ∧ ret = -1.
Proof. intros H%assign_charmap_inv ?. destruct H; done || lia. Qed.

(** What a successful assignment does to the charmap, in terms of lookups. *)
Lemma assign_charmap_success mem t codepoint tile_id t' ret :
  TCOD_tileset_assign_charmap mem t codepoint tile_id = Some (t', ret) →
  0 ≤ ret →
  ret = tile_id ∧ 0 ≤ codepoint ∧ 0 ≤ tile_id < tiles_count t
  ∧ character_map_length t ≤ character_map_length t'
  ∧ TCOD_tileset_get_charmap t' codepoint = Some tile_id
  ∧ (∀ c v, c ≠ codepoint → 0 ≤ c < character_map_length t →
       TCOD_tileset_get_charmap t c = Some v →
       TCOD_tileset_get_charmap t' c = Some v)
  ∧ (∀ c, c ≠ codepoint →
       character_map_length t ≤ c < character_map_length t' →
       TCOD_tileset_get_charmap t' c = Some 0).
Proof.
  intros H%assign_charmap_inv Hret.
  destruct H as [| Htid Hc Hlen | junk new_length cm k Htid Hc Hlt -> Hk Hfill];
    [lia| |].
  - split_and!; try done || lia.
    + rewrite get_charmap_in_range by (simpl; lia). simpl.
      apply load_Some. split; [lia|]. apply list_lookup_insert_eq. lia.
    + intros c v Hne Hcr. rewrite !get_charmap_in_range by (simpl; lia).
      simpl. rewrite !load_Some. intros [? Hl]. split; [done|].
      rewrite list_lookup_insert_ne by lia. done.
    + simpl. lia.
  - apply fill_Some in Hfill as [Hl Hcm]. rewrite realloc_length in Hl.
    split_and!; try done || (simpl; lia).
    + rewrite get_charmap_in_range by (simpl; lia). simpl.
      apply load_Some. split; [lia|]. apply list_lookup_insert_eq. lia.
    + intros c v Hne Hcr. rewrite !get_charmap_in_range by (simpl; lia).
      simpl. rewrite !load_Some. intros [? Hlk]. split; [done|].
      rewrite list_lookup_insert_ne by lia. rewrite Hcm.
      rewrite decide_False by lia.
      rewrite realloc_lookup_old; [done| |lia].
      by apply lookup_lt_Some in Hlk.
    + simpl. intros c Hne Hcr. rewrite get_charmap_in_range by (simpl; lia).
      simpl. apply load_Some. split; [lia|].
      rewrite list_lookup_insert_ne by lia. rewrite Hcm.
      by rewrite decide_True by lia.
Qed.

Lemma assign_charmap_wf mem t codepoint tile_id t' ret :
  tileset_wf t →
  TCOD_tileset_assign_charmap mem t codepoint tile_id = Some (t', ret) →
  tileset_wf t'.
Proof.
  intros [Htl Hcnt Hpx Hlen Hent Hbl] H%assign_charmap_inv.
  destruct H as [| Htid Hc Hl | junk new_length cm k Htid Hc Hlt -> Hk Hfill];
    [done| |].
  - split; simpl; try done.
    + rewrite length_insert. done.
    + apply Forall_insert; done.
  - apply fill_Some in Hfill as [Hl Hcm]. rewrite realloc_length in Hl.
    split; simpl; try done.
    + rewrite length_insert. lia.
    + apply Forall_insert; [|done]. apply Forall_lookup. intros j v.
      rewrite Hcm.
      destruct (decide (character_map_length t ≤ Z.of_nat j < new_length)).
      * intros [= <-]. lia.
      * intros Hj. pose proof (lookup_lt_Some _ _ _ Hj) as Hjlt.
        rewrite realloc_length in Hjlt.
        rewrite realloc_lookup_old in Hj by lia.
        by eapply (Forall_lookup_1 _ _ _ _ Hent).
Qed.

(** ** Generating a tile id *)

Lemma generate_charmap_inv mem t codepoint t' ret :
  TCOD_tileset_generate_charmap mem t codepoint = Some (t', ret) →
  (TCOD_tileset_get_charmap t codepoint = Some ret ∧ ret > 0 ∧ t' = t)
  ∨ (∃ v, TCOD_tileset_get_charmap t codepoint = Some v ∧ v ≤ 0
        ∧ tiles_count t = tiles_capacity t ∧ realloc_pixels mem = None
        ∧ ret = -1 ∧ t' = t)
  ∨ (∃ v t1, TCOD_tileset_get_charmap t codepoint = Some v ∧ v ≤ 0
        ∧ arena_outcome mem t t1
        ∧ TCOD_tileset_assign_charmap (realloc_charmap mem)
            (take_tile_id t1) codepoint (next_tile_id t1) = Some (t', ret)).
Proof.
  unfold TCOD_tileset_generate_charmap.
  destruct (TCOD_tileset_get_charmap t codepoint) as [v|] eqn:Hv; [|done].
  simpl. case_decide as Hpos.
  { intros [= <- <-]. by left. }
  assert (∀ t1, (let tileset :=
             if decide (tiles_count t1 = 0) then with_tiles_count t1 1
             else t1 in
           TCOD_tileset_assign_charmap (realloc_charmap mem)
             (with_tiles_count tileset (tiles_count tileset + 1)) codepoint
             (tiles_count tileset))
          = TCOD_tileset_assign_charmap (realloc_charmap mem)
              (take_tile_id t1) codepoint (next_tile_id t1)) as Hcont.
  { intros t1. unfold take_tile_id, next_tile_id. simpl.
    destruct (decide (tiles_count t1 = 0)); done. }
  case_decide as Hcap.
  - destruct (realloc_pixels mem) as [junk|] eqn:Hmem.
    + destruct (fill _ _ _ _) as [px|] eqn:Hfill; [|done]. simpl.
      intros Hassign. right. right.
      exists v, (with_pixels t (grown_capacity t) px).
      split_and!; [done|lia| |rewrite <- Hcont; exact Hassign].
      eapply arena_grown; eauto.
    + intros [= <- <-]. right. left. exists v. split_and!; done || lia.
  - intros Hassign. right. right. exists v, t.
    split_and!; [done|lia| |rewrite <- Hcont; exact Hassign].
    by apply arena_kept.
Qed.

Lemma same_frame_refl t : same_frame t t.
Proof. by repeat split. Qed.

Lemma same_frame_trans t1 t2 t3 :
  same_frame t1 t2 → same_frame t2 t3 → same_frame t1 t3.
Proof. unfold same_frame. intros (?&?&?&?&?&?) (?&?&?&?&?&?). split_and!; congruence. Qed.

Lemma assign_charmap_same_frame mem t codepoint tile_id t' ret :
  TCOD_tileset_assign_charmap mem t codepoint tile_id = Some (t', ret) →
  same_frame t t' ∧ pixels t' = pixels t
  ∧ tiles_count t' = tiles_count t ∧ tiles_capacity t' = tiles_capacity t.
Proof.
  intros ->%assign_charmap_frame. by repeat split.
Qed.

Lemma arena_outcome_frame mem t t1 :
  arena_outcome mem t t1 →
  same_frame t t1 ∧ tiles_count t1 = tiles_count t
  ∧ character_map t1 = character_map t
  ∧ character_map_length t1 = character_map_length t.
Proof. intros []; by repeat split. Qed.

Lemma arena_outcome_capacity mem t t1 :
  arena_outcome mem t t1 →
  (tiles_capacity t1 = tiles_capacity t ∧ pixels t1 = pixels t)
  ∨ (tiles_count t = tiles_capacity t
     ∧ tiles_capacity t1 = grown_capacity t).
Proof. intros []; [by left|by right]. Qed.

(** The contents of the arena after the capacity check: the cells of the
    old arena are kept and the added ones are cleared. *)
Lemma arena_outcome_lookup mem t t1 (j : nat) :
  arena_outcome mem t t1 →
  pixels t1 !! j
  = if decide (tiles_capacity t * tile_length t ≤ Z.of_nat j
               < tiles_capacity t1 * tile_length t
               ∧ tiles_capacity t1 ≠ tiles_capacity t)
    then Some (RGBA 0 0 0 0)
    else if decide (Z.of_nat j < tiles_capacity t * tile_length t
                    ∧ (j < length (pixels t))%nat)
         then pixels t !! j
         else pixels t1 !! j.
Proof.
  intros [|junk px Hc Hmem Hfill].
  - rewrite decide_False by lia. by case_decide.
  - simpl. apply fill_Some in Hfill as [Hl Hpx].
    rewrite Hpx.
    destruct (decide (tiles_capacity t * tile_length t ≤ Z.of_nat j
                      < grown_capacity t * tile_length t)) as [Hin|Hout].
    + case_decide as Hne; [done|].
      assert (grown_capacity t = tiles_capacity t) as Heq.
      { destruct (decide (grown_capacity t = tiles_capacity t)); [done|].
        exfalso. apply Hne. done. }
      rewrite Heq in Hin. lia.
    + rewrite decide_False by tauto.
      case_decide as Hold; [|done].
      apply realloc_lookup_old; [lia|].
      unfold grown_capacity, DEFAULT_TILES_LENGTH in *.
      destruct (decide (tiles_capacity t * 2 = 0)); nia.
Qed.

Lemma arena_outcome_wf mem t t1 :
  tileset_wf t → arena_outcome mem t t1 → tileset_wf (take_tile_id t1).
Proof.
  intros [Htl Hcnt Hpx Hlen Hent Hbl] [Hne|junk px Hc Hmem Hfill];
    unfold take_tile_id, next_tile_id.
  - split; simpl; try done.
    + case_decide; lia.
    + eapply Forall_impl; [exact Hent|]. simpl. intros v ?. case_decide; lia.
    + case_decide; lia.
  - apply fill_Some in Hfill as [Hl _]. rewrite realloc_length in Hl.
    assert (tiles_count t < grown_capacity t).
    { unfold grown_capacity, DEFAULT_TILES_LENGTH. case_decide; lia. }
    split; simpl; try done.
    + unfold grown_capacity, DEFAULT_TILES_LENGTH in *.
      repeat case_decide; lia.
    + rewrite Hl. nia.
    + eapply Forall_impl; [exact Hent|]. simpl. intros v ?. case_decide; lia.
    + case_decide; lia.
Qed.

Lemma generate_charmap_same_frame mem t codepoint t' ret :
  TCOD_tileset_generate_charmap mem t codepoint = Some (t', ret) →
  same_frame t t'.
Proof.
  intros [(_&_&->)|[(v&_&_&_&_&_&->)|(v&t1&_&_&Ha&Has)]]%generate_charmap_inv;
    try apply same_frame_refl.
  apply arena_outcome_frame in Ha as [Ha _].
  apply assign_charmap_same_frame in Has as [Has _].
  eapply same_frame_trans; [done|]. exact Has.
Qed.

(** A generated id is the codepoint's mapping afterwards; a failed
    generation leaves the charmap as it was. *)
Lemma generate_charmap_success mem t codepoint t' ret :
  TCOD_tileset_generate_charmap mem t codepoint = Some (t', ret) →
  0 ≤ ret →
  TCOD_tileset_get_charmap t' codepoint = Some ret ∧ 0 < ret.
Proof.
  intros [(?&?&->)|[(v&_&_&_&_&->&_)|(v&t1&_&_&Ha&Has)]]%generate_charmap_inv
    ?; [split; [done|lia] | lia |].
  apply assign_charmap_success in Has as (-> & _ & ? & _ & ? & _); [|done].
  split; [done|]. unfold next_tile_id. case_decide; [lia|].
  unfold next_tile_id in *. case_decide; lia.
Qed.

Lemma generate_charmap_failed mem t codepoint t' ret :
  TCOD_tileset_generate_charmap mem t codepoint = Some (t', ret) →
  ret < 0 →
  character_map t' = character_map t
  ∧ character_map_length t' = character_map_length t.
Proof.
  intros [(?&?&->)|[(v&_&_&_&_&->&->)|(v&t1&_&_&Ha&Has)]]%generate_charmap_inv
    ?; [lia|done|].
  apply assign_charmap_failed in Has as [-> _]; [|done].
  apply arena_outcome_frame in Ha as (_ & _ & Hcm & Hl). simpl.
  by rewrite Hcm, Hl.
Qed.

Lemma generate_charmap_wf mem t codepoint t' ret :
  tileset_wf t →
  TCOD_tileset_generate_charmap mem t codepoint = Some (t', ret) →
  tileset_wf t'.
Proof.
  intros Hwf
    [(_&_&->)|[(v&_&_&_&_&_&->)|(v&t1&_&_&Ha&Has)]]%generate_charmap_inv;
    try done.
  eapply assign_charmap_wf; [|done]. by eapply arena_outcome_wf.
Qed.

Lemma get_charmap_defined t codepoint :
  tileset_wf t → ∃ v, TCOD_tileset_get_charmap t codepoint = Some v ∧ -1 ≤ v.
Proof.
  intros Hwf. unfold TCOD_tileset_get_charmap. case_decide.
  { exists (-1). done. }
  pose proof (wf_character_map t Hwf).
  destruct (load_is_Some (character_map t) codepoint) as [v Hv]; [lia|].
  exists v. split; [done|].
  apply load_Some in Hv as [_ Hv].
  pose proof (Forall_lookup_1 _ _ _ _ (wf_entries t Hwf) Hv) as Hr.
  simpl in Hr. lia.
Qed.

Lemma generate_charmap_defined mem t codepoint :
  tileset_wf t → codepoint < 2 ^ 30 →
  is_Some (TCOD_tileset_generate_charmap mem t codepoint).
Proof.
  intros Hwf Hc.
  destruct (get_charmap_defined t codepoint Hwf) as (v & Hv & _).
  unfold TCOD_tileset_generate_charmap. rewrite Hv. simpl.
  case_decide; [done|].
  assert (∀ t1, arena_outcome mem t t1 →
    is_Some (let tileset :=
               if decide (tiles_count t1 = 0) then with_tiles_count t1 1
               else t1 in
             TCOD_tileset_assign_charmap (realloc_charmap mem)
               (with_tiles_count tileset (tiles_count tileset + 1)) codepoint
               (tiles_count tileset))) as Hcont.
  { intros t1 Ha. apply (arena_outcome_wf _ _ _ Hwf) in Ha.
    pose proof (assign_charmap_defined (realloc_charmap mem) (take_tile_id t1)
                  codepoint (next_tile_id t1) Ha Hc) as Hs.
    unfold take_tile_id, next_tile_id in Hs. simpl.
    destruct (decide (tiles_count t1 = 0)); exact Hs. }
  case_decide as Hcap.
  - destruct (realloc_pixels mem) as [junk|] eqn:Hmem; [|done].
    destruct Hwf as [Htl Hcnt Hpx Hlen Hent Hbl].
    destruct (fill_is_Some
                (realloc junk (pixels t) (grown_capacity t * tile_length t))
                (tiles_capacity t * tile_length t)
                (grown_capacity t * tile_length t) (RGBA 0 0 0 0))
      as [px Hfill].
    { nia. }
    { rewrite realloc_length.
      unfold grown_capacity, DEFAULT_TILES_LENGTH. case_decide; nia. }
    pose proof (arena_grown mem t junk px Hcap Hmem Hfill) as Ha.
    apply Hcont in Ha. unfold grown_capacity in Hfill.
    rewrite Hfill. simpl. exact Ha.
  - apply Hcont. by apply arena_kept.
Qed.

(** ** Writing and reading tiles *)

Lemma set_tile_inv mem t codepoint buffer t' status log :
  TCOD_tileset_set_tile_ mem t codepoint buffer = Some (t', status, log) →
  ∃ v t1 tile_id,
    TCOD_tileset_get_charmap t codepoint = Some v
    ∧ ((0 ≤ v ∧ t1 = t ∧ tile_id = v)
       ∨ (v < 0
          ∧ TCOD_tileset_generate_charmap mem t codepoint = Some (t1, tile_id)))
    ∧ ((tile_id < 0 ∧ t' = t1 ∧ status = tile_id ∧ log = [])
       ∨ (0 ≤ tile_id
          ∧ ∃ px, memcpy (pixels t1) (tile_length t1 * tile_id) buffer 0
                    (tile_length t1) = Some px
                  ∧ t' = with_pixels t1 (tiles_capacity t1) px
                  ∧ notify_observers (observer_list t1) tile_id codepoint
                    = (status, log))).
Proof.
  unfold TCOD_tileset_set_tile_.
  destruct (TCOD_tileset_get_charmap t codepoint) as [v|] eqn:Hv; [|done].
  simpl. intros Hrun. exists v.
  assert (∃ t1 tile_id,
    (if decide (v < 0)
     then TCOD_tileset_generate_charmap mem t codepoint
     else Some (t, v)) = Some (t1, tile_id)) as (t1 & tile_id & Hres).
  { destruct (if decide (v < 0) then _ else _) as [[t1 tile_id]|]; [|done].
    by exists t1, tile_id. }
  rewrite Hres in Hrun. simpl in Hrun. exists t1, tile_id.
  split; [done|]. split.
  { clear Hrun. revert Hres.
    case_decide; intros Hres; [right; split; [lia|exact Hres]|].
    simplify_eq. left. split_and!; done || lia. }
  clear Hres. revert Hrun. case_decide; intros Hrun.
  { simplify_eq. by left. }
  right. split; [lia|].
  destruct (memcpy _ _ _ _ _) as [px|] eqn:Hcp; [|done]. simpl in Hrun.
  exists px. split; [done|].
  destruct (notify_observers _ _ _) as [err log'] eqn:Hn.
  by simplify_eq.
Qed.

(** When the codepoint is mapped after the call, the block was copied to its
    tile and the observers were notified: the failures of the call that come
    before the copy leave the codepoint unmapped. *)
Lemma set_tile_written mem t codepoint buffer t' status log tile_id :
  TCOD_tileset_set_tile_ mem t codepoint buffer = Some (t', status, log) →
  TCOD_tileset_get_charmap t' codepoint = Some tile_id → 0 ≤ tile_id →
  ∃ t1 px,
    memcpy (pixels t1) (tile_length t * tile_id) buffer 0 (tile_length t)
    = Some px
    ∧ t' = with_pixels t1 (tiles_capacity t1) px
    ∧ notify_observers (observer_list t) tile_id codepoint = (status, log)
    ∧ same_frame t t1
    ∧ ((t1 = t ∧ TCOD_tileset_get_charmap t codepoint = Some tile_id)
       ∨ (TCOD_tileset_generate_charmap mem t codepoint = Some (t1, tile_id)
          ∧ ∃ v, TCOD_tileset_get_charmap t codepoint = Some v ∧ v < 0)).
Proof.
  intros (v & t1 & tid & Hv & Hres & Hout)%set_tile_inv Hget Htid.
  assert (same_frame t t1) as Hfr.
  { destruct Hres as [(_&->&_)|[_ Hg]]; [apply same_frame_refl|].
    by eapply generate_charmap_same_frame. }
  assert (0 ≤ tid → TCOD_tileset_get_charmap t1 codepoint = Some tid) as Hm.
  { intros ?. destruct Hres as [(_&->&->)|[_ Hg]]; [done|].
    by apply generate_charmap_success in Hg as [? _]. }
  destruct Hout as [(Hneg & -> & _ & _)|(Hpos & px & Hcp & -> & Hn)].
  - exfalso. destruct Hres as [(?&_&->)|[Hvneg Hg]]; [lia|].
    apply generate_charmap_failed in Hg as [Hcm Hl]; [|done].
    unfold TCOD_tileset_get_charmap in Hget, Hv. rewrite Hcm, Hl in Hget.
    rewrite Hv in Hget. simplify_eq. lia.
  - specialize (Hm Hpos).
    assert (tid = tile_id) as ->.
    { unfold TCOD_tileset_get_charmap in Hget, Hm. simpl in Hget.
      rewrite Hm in Hget. by simplify_eq. }
    destruct Hfr as (Hw & Hh & Htl & Hobs & Hvc & Hrc).
    rewrite Htl in Hcp. rewrite Hobs in Hn.
    exists t1, px. split_and!; try done.
    destruct Hres as [(_&->&->)|[? Hg]]; [by left|].
    right. split; [done|]. by exists v.
Qed.

Lemma set_tile_same_frame mem t codepoint buffer t' status log :
  TCOD_tileset_set_tile_ mem t codepoint buffer = Some (t', status, log) →
  same_frame t t'.
Proof.
  intros (v & t1 & tid & Hv & Hres & Hout)%set_tile_inv.
  assert (same_frame t t1) as Hfr.
  { destruct Hres as [(_&->&_)|[_ Hg]]; [apply same_frame_refl|].
    by eapply generate_charmap_same_frame. }
  destruct Hout as [(_ & -> & _ & _)|(_ & px & _ & -> & _)]; done.
Qed.

Lemma set_tile_wf mem t codepoint buffer t' status log :
  tileset_wf t →
  TCOD_tileset_set_tile_ mem t codepoint buffer = Some (t', status, log) →
  tileset_wf t'.
Proof.
  intros Hwf (v & t1 & tid & Hv & Hres & Hout)%set_tile_inv.
  assert (tileset_wf t1) as [Htl Hcnt Hpx Hlen Hent Hbl].
  { destruct Hres as [(_&->&_)|[_ Hg]]; [done|].
    by eapply generate_charmap_wf. }
  destruct Hout as [(_ & -> & _ & _)|(_ & px & Hcp & -> & _)]; [done|].
  apply memcpy_length in Hcp. split; simpl; try done. by rewrite Hcp.
Qed.

(** Reading a mapped codepoint copies the block of its tile. *)
Lemma get_tile_mapped t codepoint tile_id out :
  TCOD_tileset_get_charmap t codepoint = Some tile_id → 0 ≤ tile_id →
  0 ≤ tile_length t →
  tile_length t * tile_id + tile_length t ≤ Z.of_nat (length (pixels t)) →
  tile_length t ≤ Z.of_nat (length out) →
  TCOD_tileset_get_tile_ t codepoint (Some out)
  = Some (0, Some (tile_block t tile_id
                   ++ drop (Z.to_nat (tile_length t)) out)).
Proof.
  intros Hget ? ? ? ?. unfold TCOD_tileset_get_tile_, TCOD_tileset_get_tile.
  rewrite Hget. simpl. rewrite decide_False by lia. simpl.
  unfold memcpy. rewrite decide_True by nia. simpl.
  rewrite Z.add_0_l. done.
Qed.

Lemma get_charmap_wf_bound t codepoint v :
  tileset_wf t → TCOD_tileset_get_charmap t codepoint = Some v → 0 ≤ v →
  v < tiles_count t ∧ 0 ≤ codepoint < character_map_length t.
Proof.
  intros Hwf [[-> _]|[? [_ Hl]%load_Some]]%get_charmap_Some ?; [lia|].
  pose proof (Forall_lookup_1 _ _ _ _ (wf_entries t Hwf) Hl) as Hr.
  simpl in Hr. lia.
Qed.

(** On a well-formed tileset, for a codepoint below [2^30] and a buffer that
    holds a tile, [TCOD_tileset_set_tile_] is well defined. *)
Lemma set_tile_defined mem t codepoint buffer :
  tileset_wf t → codepoint < 2 ^ 30 →
  tile_length t ≤ Z.of_nat (length buffer) →
  is_Some (TCOD_tileset_set_tile_ mem t codepoint buffer).
Proof.
  intros Hwf Hc Hbuf.
  destruct (get_charmap_defined t codepoint Hwf) as (v & Hv & Hvge).
  unfold TCOD_tileset_set_tile_. rewrite Hv. simpl.
  assert (∃ t1 tile_id,
    (if decide (v < 0)
     then TCOD_tileset_generate_charmap mem t codepoint
     else Some (t, v)) = Some (t1, tile_id)
    ∧ tileset_wf t1 ∧ tile_length t1 = tile_length t
    ∧ (0 ≤ tile_id → TCOD_tileset_get_charmap t1 codepoint = Some tile_id))
    as (t1 & tile_id & -> & Hwf1 & Htl & Hm).
  { case_decide.
    - destruct (generate_charmap_defined mem t codepoint Hwf Hc)
        as [[t1 tile_id] Hg].
      exists t1, tile_id. split_and!; [done| | |].
      + by eapply generate_charmap_wf.
      + by apply generate_charmap_same_frame in Hg as (_&_&?&_).
      + intros ?. by apply generate_charmap_success in Hg as [? _].
    - exists t, v. done. }
  simpl. case_decide; [done|].
  destruct (get_charmap_wf_bound t1 codepoint tile_id Hwf1) as [Hlt _];
    [apply Hm; lia|lia|].
  destruct Hwf1 as [Htl1 Hcnt Hpx Hlen Hent Hbl].
  unfold memcpy. rewrite decide_True by nia. simpl.
  by destruct (notify_observers _ _ _).
Qed.

Lemma set_tile_resolved mem t codepoint buffer t' status log :
  TCOD_tileset_set_tile_ mem t codepoint buffer = Some (t', status, log) →
  (status < 0 ∧ log = [])
  ∨ (∃ tile_id, 0 ≤ tile_id
       ∧ TCOD_tileset_get_charmap t' codepoint = Some tile_id).
Proof.
  intros (v & t1 & tid & Hv & Hres & Hout)%set_tile_inv.
  destruct Hout as [(Hneg & -> & -> & ->)|(Hpos & px & Hcp & -> & Hn)];
    [by left|].
  right. exists tid. split; [done|].
  destruct Hres as [(_&->&->)|[_ Hg]]; [done|].
  by apply generate_charmap_success in Hg as [? _].
Qed.

(** After the copy the tile holds the first [tile_length] pixels of the
    buffer. *)
Lemma tile_block_written t1 tile_id buffer px :
  memcpy (pixels t1) (tile_length t1 * tile_id) buffer 0 (tile_length t1)
  = Some px →
  tile_block (with_pixels t1 (tiles_capacity t1) px) tile_id
  = take (Z.to_nat (tile_length t1)) buffer.
Proof.
  intros Hcp. unfold tile_block. simpl.
  by rewrite (take_drop_memcpy _ _ _ _ _ _ Hcp).
Qed.

(** *** The notification loop *)

Lemma notify_observers_spec it tile_id codepoint status log :
  notify_observers it tile_id codepoint = (status, log) →
  (status = 0 ∧ log = notified it tile_id codepoint
   ∧ ∀ o hook, o ∈ it → on_tileset_changed o = Some hook →
       hook tile_id codepoint = 0)
  ∨ (∃ visited o rest hook,
       it = visited ++ o :: rest
       ∧ on_tileset_changed o = Some hook
       ∧ hook tile_id codepoint = status ∧ status ≠ 0
       ∧ (∀ o' hook', o' ∈ visited → on_tileset_changed o' = Some hook' →
            hook' tile_id codepoint = 0)
       ∧ log = notified visited tile_id codepoint
               ++ [ChangeHook (self o) tile_id codepoint]).
Proof.
  revert status log. induction it as [|o it IH]; intros status log; simpl.
  { intros [= <- <-]. left. split_and!; [done..|]. by intros ?? ?%elem_of_nil. }
  destruct (on_tileset_changed o) as [hook|] eqn:Hhook.
  - case_decide as Herr.
    + intros [= <- <-]. right. exists [], o, it, hook.
      split_and!; try done. by intros ?? ?%elem_of_nil.
    + destruct (notify_observers it tile_id codepoint) as [err log'] eqn:Hn.
      intros [= <- <-].
      assert (hook tile_id codepoint = 0) as H0.
      { destruct (decide (hook tile_id codepoint = 0)); done. }
      destruct (IH _ _ eq_refl)
        as [(-> & -> & Hall)|(vis & o' & rest & h' & -> & ? & ? & ? & Hvis & ->)].
      * left. split_and!; [done| |].
        -- unfold notified. rewrite filter_cons_True by (rewrite Hhook; eauto).
           done.
        -- intros o' h' [->|?]%elem_of_cons ?; [congruence|eauto].
      * right. exists (o :: vis), o', rest, h'. split_and!; try done.
        -- intros o'' h'' [->|?]%elem_of_cons ?; [congruence|eauto].
        -- unfold notified. rewrite filter_cons_True by (rewrite Hhook; eauto).
           done.
  - intros Hn.
    destruct (IH _ _ Hn)
      as [(-> & -> & Hall)|(vis & o' & rest & h' & -> & ? & ? & ? & Hvis & ->)].
    + left. split_and!; [done| |].
      * unfold notified.
        rewrite filter_cons_False; [done|]. rewrite Hhook. by intros [].
      * intros o' h' [->|?]%elem_of_cons ?; [congruence|eauto].
    + right. exists (o :: vis), o', rest, h'. split_and!; try done.
      * intros o'' h'' [->|?]%elem_of_cons ?; [congruence|eauto].
      * unfold notified.
        rewrite filter_cons_False; [done|]. rewrite Hhook. by intros [].
Qed.

(** With memory available, generating a tile id for a codepoint in
    [[0, 2^30)] succeeds. *)
Lemma generate_charmap_ok mem t codepoint :
  tileset_wf t → 0 ≤ codepoint < 2 ^ 30 →
  is_Some (realloc_pixels mem) → is_Some (realloc_charmap mem) →
  ∃ t1 tile_id,
    TCOD_tileset_generate_charmap mem t codepoint = Some (t1, tile_id)
    ∧ 0 < tile_id.
Proof.
  intros Hwf Hc [jp Hp] [jc Hcm].
  destruct (generate_charmap_defined mem t codepoint Hwf) as [[t1 ret] Hg];
    [lia|].
  exists t1, ret. split; [done|].
  pose proof Hg as
    [(_&?&_)|[(v&_&_&_&?&_)|(v&t0&_&_&Ha&Has)]]%generate_charmap_inv;
    [lia|congruence|].
  apply arena_outcome_frame in Ha as (_ & Hcnt & _ & _).
  pose proof (wf_tiles_count t Hwf) as Hcnt0.
  apply assign_charmap_inv in Has.
  unfold take_tile_id, next_tile_id in Has.
  destruct Has as [Hrej| |]; simpl in *;
    [|destruct (decide (tiles_count t0 = 0)); lia..].
  exfalso.
  destruct (decide (tiles_count t0 = 0));
    (destruct Hrej as [?|[?|[_ ?]]]; [lia|lia|congruence]).
Qed.

Lemma set_tile_ok mem t codepoint buffer :
  tileset_wf t → 0 ≤ codepoint < 2 ^ 30 →
  tile_length t ≤ Z.of_nat (length buffer) →
  is_Some (realloc_pixels mem) → is_Some (realloc_charmap mem) →
  ∃ t' status log tile_id,
    TCOD_tileset_set_tile_ mem t codepoint buffer = Some (t', status, log)
    ∧ 0 ≤ tile_id
    ∧ TCOD_tileset_get_charmap t' codepoint = Some tile_id
    ∧ notify_observers (observer_list t) tile_id codepoint = (status, log).
Proof.
  intros Hwf Hc Hbuf Hp Hcm.
  destruct (set_tile_defined mem t codepoint buffer Hwf) as [[[t' st] log] Hs];
    [lia|done|].
  pose proof Hs as (v & t1 & tid & Hv & Hres & Hout)%set_tile_inv.
  assert (0 ≤ tid ∧ TCOD_tileset_get_charmap t1 codepoint = Some tid
          ∧ same_frame t t1) as (Htid & Hm & Hfr).
  { destruct Hres as [(?&->&->)|[_ Hg]].
    - split_and!; [done|done|apply same_frame_refl].
    - destruct (generate_charmap_ok mem t codepoint) as (?&?&Hg'&?);
        try done.
      rewrite Hg in Hg'. simplify_eq. split_and!; [lia| |].
      + apply generate_charmap_success in Hg as [? _]; [done|lia].
      + by eapply generate_charmap_same_frame. }
  destruct Hout as [(?&_)|(_ & px & Hcp & -> & Hn)]; [lia|].
  destruct Hfr as (_ & _ & _ & Hobs & _).
  exists (with_pixels t1 (tiles_capacity t1) px), st, log, tid.
  split_and!; [done|done|exact Hm|by rewrite <- Hobs].
Qed.

Lemma new_wf w h : 0 ≤ w → 0 ≤ h → tileset_wf (TCOD_tileset_new w h).
Proof. intros ??. split; simpl; try done; try lia. Qed.

(** An in-range codepoint keeps its tile id when it is written, whatever
    the id: no tile is allocated and the charmap is left alone. *)
Lemma set_tile_mapped_in_place mem t codepoint buffer v t' status log :
  TCOD_tileset_get_charmap t codepoint = Some v → 0 ≤ v →
  TCOD_tileset_set_tile_ mem t codepoint buffer = Some (t', status, log) →
  tiles_count t' = tiles_count t
  ∧ tiles_capacity t' = tiles_capacity t
  ∧ character_map t' = character_map t
  ∧ character_map_length t' = character_map_length t
  ∧ tile_block t' v = take (Z.to_nat (tile_length t)) buffer.
Proof.
  intros Hv Hpos (v' & t1 & tid & Hv' & Hres & Hout)%set_tile_inv.
  rewrite Hv in Hv'. simplify_eq.
  destruct Hres as [(_&->&->)|[? _]]; [|lia].
  destruct Hout as [(?&_)|(_ & px & Hcp & -> & _)]; [lia|].
  split_and!; try done. by apply tile_block_written.
Qed.

(** Writing a block to a fresh tileset stores the block as it is. *)
Lemma set_tile_new_copies mem w h codepoint block :
  0 ≤ w → 0 ≤ h → 0 ≤ codepoint < 2 ^ 30 →
  Z.of_nat (length block) = w * h →
  is_Some (realloc_pixels mem) → is_Some (realloc_charmap mem) →
  ∃ t' tile_id,
    TCOD_tileset_set_tile_ mem (TCOD_tileset_new w h) codepoint block
    = Some (t', 0, [])
    ∧ TCOD_tileset_get_charmap t' codepoint = Some tile_id
    ∧ tile_block t' tile_id = block.
Proof.
  intros Hw Hh Hc Hlen Hp Hcm.
  destruct (set_tile_ok mem (TCOD_tileset_new w h) codepoint block)
    as (t' & st & log & tid & Hs & Htid & Hget & Hn);
    [by apply new_wf|done|simpl; lia|done|done|].
  simpl in Hn. simplify_eq. exists t', tid. split_and!; [done|done|].
  destruct (set_tile_written _ _ _ _ _ _ _ _ Hs Hget Htid)
    as (t1 & px & Hcp & -> & _ & (_&_&Htl&_) & _).
  rewrite <- Htl in Hcp. rewrite (tile_block_written _ _ _ _ Hcp).
  apply take_ge. rewrite Htl. simpl. lia.
Qed.

(** ** The write path and the read path *)

(** C4: on a tileset without observers, when [set_tile(c, block)] succeeds
    (status 0), a following [get_tile(c, out)] succeeds and fills the first
    [tile_length] pixels of [out] with those of [block]; [c] may have been
    mapped or not before the write. *)
Theorem set_tile_get_tile_roundtrip mem t codepoint block out t' log :
  observer_list t = [] →
  TCOD_tileset_set_tile_ mem t codepoint block = Some (t', 0, log) →
  tile_length t ≤ Z.of_nat (length out) →
  TCOD_tileset_get_tile_ t' codepoint (Some out)
  = Some (0, Some (take (Z.to_nat (tile_length t)) block
                   ++ drop (Z.to_nat (tile_length t)) out)).
Proof.
  intros _ Hs Hout.
  destruct (set_tile_resolved _ _ _ _ _ _ _ Hs) as [[? _]|(tid & Htid & Hget)];
    [lia|].
  destruct (set_tile_written _ _ _ _ _ _ _ _ Hs Hget Htid)
    as (t1 & px & Hcp & -> & _ & (_&_&Htl&_) & _).
  rewrite <- Htl in *.
  pose proof (memcpy_length _ _ _ _ _ _ Hcp) as Hlen.
  pose proof Hcp as [Hb _]%memcpy_Some.
  rewrite (get_tile_mapped _ codepoint tid out Hget Htid); simpl; try lia.
  by rewrite (tile_block_written _ _ _ _ Hcp).
Qed.

Lemma set_tile_get_tile_roundtrip_witness :
  ∃ t',
    TCOD_tileset_set_tile_ leftovers (TCOD_tileset_new 1 1) 65
      [RGBA 10 20 30 40] = Some (t', 0, [])
    ∧ TCOD_tileset_get_tile_ t' 65 (Some [RGBA 0 0 0 0])
      = Some (0, Some [RGBA 10 20 30 40]).
Proof.
  eexists. split; [vm_compute; reflexivity|].
  apply (set_tile_get_tile_roundtrip leftovers (TCOD_tileset_new 1 1) 65
           [RGBA 10 20 30 40] [RGBA 0 0 0 0] _ []).
  - reflexivity.
  - vm_compute. reflexivity.
  - simpl. lia.
Defined.

(** C9: when the call returns a nonzero status after some change hook was
    invoked, the status is the one of the last hook invoked, and the state
    change stays: the codepoint is mapped (also when the mapping was made by
    this call) and its tile holds the block. *)
Theorem set_tile_hook_failure_keeps_write mem t codepoint block t' status log :
  TCOD_tileset_set_tile_ mem t codepoint block = Some (t', status, log) →
  status ≠ 0 → log ≠ [] →
  ∃ tile_id o hook,
    o ∈ observer_list t ∧ on_tileset_changed o = Some hook
    ∧ hook tile_id codepoint = status
    ∧ last log = Some (ChangeHook (self o) tile_id codepoint)
    ∧ 0 ≤ tile_id
    ∧ TCOD_tileset_get_charmap t' codepoint = Some tile_id
    ∧ tile_block t' tile_id = take (Z.to_nat (tile_length t)) block.
Proof.
  intros Hs Hst Hlog.
  destruct (set_tile_resolved _ _ _ _ _ _ _ Hs) as [[_ ?]|(tid & Htid & Hget)];
    [done|].
  destruct (set_tile_written _ _ _ _ _ _ _ _ Hs Hget Htid)
    as (t1 & px & Hcp & -> & Hn & (_&_&Htl&_) & _).
  apply notify_observers_spec in Hn
    as [(?&_)|(vis & o & rest & hook & Hl & Hh & Hr & _ & _ & ->)]; [done|].
  exists tid, o, hook. split_and!; try done.
  - rewrite Hl. apply elem_of_app. right. by left.
  - by rewrite last_snoc.
  - rewrite <- Htl in *. by apply tile_block_written.
Qed.

Lemma set_tile_hook_failure_keeps_write_witness :
  ∃ t0 t',
    TCOD_tileset_observer_new (Some 7%nat) (TCOD_tileset_new 1 1)
    = Some (t0, 7%nat)
    ∧ TCOD_tileset_set_tile_ leftovers
        (observer_set_hooks t0 7%nat (Some (λ _ _, 5)) false) 65
        [RGBA 10 20 30 40] = Some (t', 5, [ChangeHook 7%nat 1 65])
    ∧ ∃ tile_id o hook,
        o ∈ [Observer 7%nat (Some (λ _ _ : Z, 5)) false]
        ∧ on_tileset_changed o = Some hook
        ∧ hook tile_id 65 = 5
        ∧ last [ChangeHook 7%nat 1 65] = Some (ChangeHook (self o) tile_id 65)
        ∧ 0 ≤ tile_id
        ∧ TCOD_tileset_get_charmap t' 65 = Some tile_id
        ∧ tile_block t' tile_id = take (Z.to_nat 1) [RGBA 10 20 30 40].
Proof.
  eexists _, _. split; [reflexivity|]. split; [vm_compute; reflexivity|].
  eapply (set_tile_hook_failure_keeps_write leftovers
           (observer_set_hooks
              (with_observer_list (TCOD_tileset_new 1 1)
                 [Observer 7%nat None false]) 7%nat (Some (λ _ _, 5)) false)
           65 [RGBA 10 20 30 40] _ 5 [ChangeHook 7%nat 1 65]).
  - vm_compute. reflexivity.
  - lia.
  - discriminate.
Defined.

(** C10: for a codepoint inside the charmap whose entry is the default 0,
    [get_tile] reports success: with a [NULL] buffer it returns 0, with a
    buffer it copies the block of tile 0; and assigning the codepoint to
    the blank tile explicitly changes nothing that a read can see. *)
Theorem get_tile_unassigned_in_range_is_blank t codepoint :
  tileset_wf t →
  0 ≤ codepoint < character_map_length t →
  TCOD_tileset_get_charmap t codepoint = Some 0 →
  TCOD_tileset_get_tile_ t codepoint None = Some (0, None)
  ∧ (∀ out, tile_length t ≤ Z.of_nat (length out) →
       TCOD_tileset_get_tile_ t codepoint (Some out)
       = Some (0, Some (tile_block t 0
                        ++ drop (Z.to_nat (tile_length t)) out)))
  ∧ (∀ mem t' ret buffer,
       TCOD_tileset_assign_charmap mem t codepoint 0 = Some (t', ret) →
       0 ≤ ret →
       TCOD_tileset_get_tile_ t' codepoint buffer
       = TCOD_tileset_get_tile_ t codepoint buffer).
Proof.
  intros Hwf Hc Hget. split_and!.
  - unfold TCOD_tileset_get_tile_, TCOD_tileset_get_tile. by rewrite Hget.
  - intros out Hout.
    destruct (get_charmap_wf_bound t codepoint 0 Hwf Hget) as [Hcnt _]; [lia|].
    destruct Hwf as [Htl Hcount Hpx _ _ _].
    apply get_tile_mapped; try done; nia.
  - intros mem t' ret buffer Has%assign_charmap_inv Hret.
    destruct Has as [|_ _ _|]; [lia| |lia].
    rewrite get_charmap_in_range in Hget by done.
    apply load_Some in Hget as [_ Hl].
    rewrite list_insert_id by done. by destruct t.
Qed.

Lemma get_tile_unassigned_in_range_is_blank_witness :
  ∃ t,
    blank_assigned = Some t
    ∧ TCOD_tileset_get_tile_ t 66 None = Some (0, None)
    ∧ TCOD_tileset_get_tile_ t 66 (Some [RGBA 9 9 9 9])
      = Some (0, Some [RGBA 0 0 0 0]).
Proof.
  eexists. split; [vm_compute; reflexivity|].
  match goal with
  | |- TCOD_tileset_get_tile_ ?t _ _ = _ ∧ _ =>
      assert (tileset_wf t) as Hwf
        by (split; apply (bool_decide_unpack _); vm_compute; exact I);
      destruct (get_tile_unassigned_in_range_is_blank t 66 Hwf)
        as (Hnull & Hcopy & _); [simpl; lia|reflexivity|]
  end.
  split; [exact Hnull|].
  rewrite Hcopy by (simpl; lia). reflexivity.
Defined.

(** C2 (as amended): for a tileset created with [create(8,8)],
    [set_tile(65, block)] with every pixel of [block] equal to
    [{128,128,128,255}] stores the block as it is, every stored pixel being
    [{128,128,128,255}]: the write path copies and does not convert grey to
    white with alpha (only the atlas loader does). *)
Theorem set_tile_gray_copied_verbatim mem :
  is_Some (realloc_pixels mem) → is_Some (realloc_charmap mem) →
  ∃ t' tile_id,
    TCOD_tileset_set_tile_ mem (TCOD_tileset_new 8 8) 65 opaque_gray_8x8
    = Some (t', 0, [])
    ∧ TCOD_tileset_get_charmap t' 65 = Some tile_id
    ∧ tile_block t' tile_id = opaque_gray_8x8
    ∧ Forall (λ p, p = RGBA 128 128 128 255) (tile_block t' tile_id).
Proof.
  intros Hp Hc.
  destruct (set_tile_new_copies mem 8 8 65 opaque_gray_8x8)
    as (t' & tid & Hs & Hget & Hblock);
    [lia|lia|lia|reflexivity|exact Hp|exact Hc|].
  exists t', tid. split; [exact Hs|]. split; [exact Hget|].
  split; [exact Hblock|].
  rewrite Hblock. by apply Forall_replicate.
Qed.

Lemma set_tile_gray_copied_verbatim_witness :
  ∃ t' tile_id,
    TCOD_tileset_set_tile_ leftovers (TCOD_tileset_new 8 8) 65 opaque_gray_8x8
    = Some (t', 0, [])
    ∧ TCOD_tileset_get_charmap t' 65 = Some tile_id
    ∧ tile_block t' tile_id = opaque_gray_8x8
    ∧ Forall (λ p, p = RGBA 128 128 128 255) (tile_block t' tile_id).
Proof.
  apply (set_tile_gray_copied_verbatim leftovers).
  - exists (λ _, RGBA 1 2 3 4). reflexivity.
  - exists (λ _, 77). reflexivity.
Defined.

(** C2 as stated fails: in scenario A the stored block is the grey block
    itself, so its pixels are not [{255,255,255,128}]. *)
Lemma set_tile_gray_not_converted :
  ∃ t' tile_id,
    TCOD_tileset_set_tile_ leftovers (TCOD_tileset_new 8 8) 65 opaque_gray_8x8
    = Some (t', 0, [])
    ∧ TCOD_tileset_get_charmap t' 65 = Some tile_id
    ∧ ¬ Forall (λ p, p = RGBA 255 255 255 128) (tile_block t' tile_id).
Proof.
  destruct (set_tile_new_copies leftovers 8 8 65 opaque_gray_8x8)
    as (t' & tid & Hs & Hget & Hblock);
    [lia|lia|lia|reflexivity|by eexists|by eexists|].
  exists t', tid. split; [exact Hs|]. split; [exact Hget|].
  rewrite Hblock. intros Hall.
  pose proof (Forall_lookup_1 _ _ 0%nat (RGBA 128 128 128 255) Hall eq_refl)
    as Heq.
  discriminate Heq.
Qed.

(** C1 (the code departs from it): codepoint 65 is in range and assigned to
    tile 0 by hand in a tileset with [tiles_count = 2]; writing a block for it
    keeps [tiles_count] at 2 and the mapping at 0 and overwrites the blank
    tile 0 with the block. *)
Theorem set_tile_blank_mapping_overwrites_tile_zero :
  ∃ t t',
    blank_assigned = Some t
    ∧ tiles_count t = 2
    ∧ TCOD_tileset_get_charmap t 65 = Some 0
    ∧ tile_block t 0 = [RGBA 0 0 0 0]
    ∧ TCOD_tileset_set_tile_ leftovers t 65 [RGBA 5 6 7 8] = Some (t', 0, [])
    ∧ tiles_count t' = 2
    ∧ TCOD_tileset_get_charmap t' 65 = Some 0
    ∧ tile_block t' 0 = [RGBA 5 6 7 8].
Proof.
  eexists _, _. split; [vm_compute; reflexivity|].
  split; [reflexivity|]. split; [reflexivity|]. split; [reflexivity|].
  split; [vm_compute; reflexivity|].
  split; [reflexivity|]. split; reflexivity.
Qed.

(** ** Observers *)

Lemma attach_two_observer_list t o1 o2 hook1 hook2 t2 :
  attach_two t o1 o2 hook1 hook2 = Some t2 →
  observer_list t2
  = Observer o2 (Some hook2) true :: Observer o1 (Some hook1) true
    :: observer_list t
  ∧ t2 = with_observer_list t (observer_list t2).
Proof.
  unfold attach_two, TCOD_tileset_observer_new, observer_set_hooks. simpl.
  rewrite !decide_True by done. intros [= <-]. done.
Qed.

(** C5: with [O1] attached before [O2], a tile write notifies [O2] first;
    when the hook of [O2] returns a nonzero status the call returns it and
    the hook of [O1] is not invoked; when the hook of [O2] returns 0 the hook
    of [O1] is invoked next, and if that one returns a nonzero status
    the call returns it, no further hook is invoked and the invocation of
    [O2] stays in the record of the call. *)
Theorem observers_notified_most_recent_first
    mem t o1 o2 hook1 hook2 t2 codepoint block t' status log tile_id :
  attach_two t o1 o2 hook1 hook2 = Some t2 →
  TCOD_tileset_set_tile_ mem t2 codepoint block = Some (t', status, log) →
  TCOD_tileset_get_charmap t' codepoint = Some tile_id → 0 ≤ tile_id →
  (hook2 tile_id codepoint ≠ 0 →
     status = hook2 tile_id codepoint
     ∧ log = [ChangeHook o2 tile_id codepoint])
  ∧ (hook2 tile_id codepoint = 0 →
       ∃ log', log = ChangeHook o2 tile_id codepoint
                     :: ChangeHook o1 tile_id codepoint :: log'
         ∧ (hook1 tile_id codepoint ≠ 0 →
              status = hook1 tile_id codepoint ∧ log' = [])).
Proof.
  intros [Hl _]%attach_two_observer_list Hs Hget Htid.
  destruct (set_tile_written _ _ _ _ _ _ _ _ Hs Hget Htid)
    as (t1 & px & _ & _ & Hn & _).
  rewrite Hl in Hn. simpl in Hn. split.
  - intros H2. rewrite decide_True in Hn by done. by simplify_eq.
  - intros H2. rewrite decide_False in Hn by (by intros ?).
    destruct (decide (hook1 tile_id codepoint ≠ 0)) as [H1|H1].
    + simplify_eq. eexists. split; [done|]. done.
    + destruct (notify_observers (observer_list t) tile_id codepoint)
        as [err log'].
      simplify_eq. exists log'. split; [done|]. intros ?. done.
Qed.

Lemma observers_notified_most_recent_first_witness :
  ∃ t2 t',
    attach_two (TCOD_tileset_new 1 1) 1%nat 2%nat (λ _ _, 0) (λ _ _, 9)
    = Some t2
    ∧ TCOD_tileset_set_tile_ leftovers t2 65 [RGBA 10 20 30 40]
      = Some (t', 9, [ChangeHook 2%nat 1 65])
    ∧ (9 ≠ 0 → 9 = 9 ∧ [ChangeHook 2%nat 1 65] = [ChangeHook 2%nat 1 65])
    ∧ (9 = 0 →
         ∃ log', [ChangeHook 2%nat 1 65]
                 = ChangeHook 2%nat 1 65 :: ChangeHook 1%nat 1 65 :: log'
           ∧ (0 ≠ 0 → 9 = 0 ∧ log' = [])).
Proof.
  eexists _, _. split; [reflexivity|]. split; [vm_compute; reflexivity|].
  eapply (observers_notified_most_recent_first leftovers (TCOD_tileset_new 1 1)
           1%nat 2%nat (λ _ _, 0) (λ _ _, 9) _ 65 [RGBA 10 20 30 40] _ 9
           [ChangeHook 2%nat 1 65] 1).
  - reflexivity.
  - vm_compute. reflexivity.
  - vm_compute. reflexivity.
  - lia.
Defined.

(** *** Releasing a tileset *)

Lemma unlink_head o next : unlink (o :: next) (self o) = Some (o, next).
Proof. simpl. by rewrite decide_True. Qed.

Lemma delete_observers_spec fuel t :
  (length (observer_list t) ≤ fuel)%nat →
  delete_observers fuel t
  = Some (with_observer_list t [], teardown (observer_list t)).
Proof.
  revert t. induction fuel as [|fuel IH]; intros t Hlen.
  - destruct t as [? ? ? ? ? ? ? ? [|o l] ? ?]; [done|simpl in Hlen; lia].
  - destruct t as [tw th tl cap cnt px cl cm [|o l] vc rc]; [done|].
    simpl in Hlen. cbn [delete_observers observer_list].
    unfold TCOD_tileset_observer_delete. cbn [observer_list].
    rewrite unlink_head. rewrite IH by (simpl; lia). simpl. done.
Qed.

Lemma teardown_absent p it :
  p ∉ self <$> it →
  occurrences (DeleteHook p) (teardown it) = 0%nat
  ∧ occurrences (Free (ObserverNode p)) (teardown it) = 0%nat.
Proof.
  unfold occurrences, teardown.
  induction it as [|o it IH]; [done|]. intros Hnot.
  rewrite fmap_cons, not_elem_of_cons in Hnot. destruct Hnot as [Hne Hnot].
  destruct (IH Hnot) as [IH1 IH2]. cbn [mbind list_bind].
  rewrite !filter_app, !length_app, IH1, IH2.
  destruct (on_observer_delete o); simpl;
    rewrite ?filter_cons_False, ?filter_nil by congruence; done.
Qed.

Lemma teardown_once o it :
  NoDup (self <$> it) → o ∈ it →
  occurrences (DeleteHook (self o)) (teardown it)
  = (if on_observer_delete o then 1 else 0)%nat
  ∧ occurrences (Free (ObserverNode (self o))) (teardown it) = 1%nat.
Proof.
  induction it as [|o' it IH]; [by intros _ ?%elem_of_nil|].
  rewrite fmap_cons, NoDup_cons. intros [Hnot Hnd] Hin.
  assert (teardown (o' :: it)
          = ((if on_observer_delete o' then [DeleteHook (self o')] else [])
             ++ [Free (ObserverNode (self o'))]) ++ teardown it) as ->
    by done.
  unfold occurrences in *. rewrite !filter_app, !length_app.
  destruct (decide (self o = self o')) as [Heq|Hne].
  - assert (o = o') as ->.
    { apply elem_of_cons in Hin as [?|Hin]; [done|].
      exfalso. apply Hnot. rewrite <- Heq. by apply list_elem_of_fmap_2. }
    destruct (teardown_absent _ _ Hnot) as [H1 H2].
    unfold occurrences in H1, H2. rewrite H1, H2.
    destruct (on_observer_delete o'); simpl;
      rewrite ?filter_cons_True, ?filter_cons_False, ?filter_nil by congruence;
      done.
  - apply elem_of_cons in Hin as [->|Hin]; [done|].
    destruct (IH Hnd Hin) as [IH1 IH2]. rewrite IH1, IH2.
    destruct (on_observer_delete o'); simpl;
      rewrite ?filter_cons_False, ?filter_nil by congruence;
      done.
Qed.

(** C8: a release at [ref_count] 2 only brings the count to 1: the charmap,
    the pixel arena, the observer list and the geometry are the same and
    nothing is freed or notified.  The release that brings the count to 0
    detaches the observers from the head of the list on, calling the
    deletion hook of each one that has a hook and freeing its node, and only
    then frees the pixel arena, the charmap and the tileset; with distinct
    node addresses each deletion hook is called exactly once. *)
Theorem release_keeps_or_tears_down t :
  (ref_count t = 2 →
     TCOD_tileset_delete t = Some (Some (with_ref_count t 1), [])
     ∧ ∀ codepoint buffer,
         TCOD_tileset_get_tile_ (with_ref_count t 1) codepoint buffer
         = TCOD_tileset_get_tile_ t codepoint buffer)
  ∧ (ref_count t = 1 →
       TCOD_tileset_delete t
       = Some (None, teardown (observer_list t)
                     ++ [Free PixelArena; Free Charmap; Free TilesetStruct])
       ∧ (NoDup (self <$> observer_list t) →
          ∀ o, o ∈ observer_list t →
            occurrences (DeleteHook (self o)) (teardown (observer_list t))
            = (if on_observer_delete o then 1 else 0)%nat
            ∧ occurrences (Free (ObserverNode (self o)))
                (teardown (observer_list t)) = 1%nat)).
Proof.
  split.
  - intros Hrc. unfold TCOD_tileset_delete. simpl. rewrite Hrc. done.
  - intros Hrc. split.
    + unfold TCOD_tileset_delete. simpl. rewrite Hrc. simpl.
      rewrite delete_observers_spec by done. done.
    + intros Hnd o Hin. by apply teardown_once.
Qed.

Lemma release_keeps_or_tears_down_witness :
  ∃ t,
    attach_two (TCOD_tileset_new 8 8) 1%nat 2%nat (λ _ _, 0) (λ _ _, 0)
    = Some t
    ∧ TCOD_tileset_delete (with_ref_count t 2) = Some (Some t, [])
    ∧ TCOD_tileset_delete t
      = Some (None, [DeleteHook 2%nat; Free (ObserverNode 2%nat);
                     DeleteHook 1%nat; Free (ObserverNode 1%nat);
                     Free PixelArena; Free Charmap; Free TilesetStruct]).
Proof.
  eexists. split; [reflexivity|]. split.
  - match goal with
    | |- TCOD_tileset_delete ?t2 = _ =>
        exact (proj1 (proj1 (release_keeps_or_tears_down t2) eq_refl))
    end.
  - match goal with
    | |- TCOD_tileset_delete ?t1 = _ =>
        exact (proj1 (proj2 (release_keeps_or_tears_down t1) eq_refl))
    end.
Defined.

(** ** Mappings are kept *)

Lemma get_charmap_ext t t' codepoint :
  character_map t' = character_map t →
  character_map_length t' = character_map_length t →
  TCOD_tileset_get_charmap t' codepoint = TCOD_tileset_get_charmap t codepoint.
Proof. intros Hcm Hl. unfold TCOD_tileset_get_charmap. by rewrite Hcm, Hl. Qed.

Lemma assign_charmap_other mem t c' tile_id t' ret codepoint v :
  TCOD_tileset_assign_charmap mem t c' tile_id = Some (t', ret) →
  codepoint ≠ c' →
  0 ≤ codepoint < character_map_length t →
  TCOD_tileset_get_charmap t codepoint = Some v →
  0 ≤ codepoint < character_map_length t'
  ∧ TCOD_tileset_get_charmap t' codepoint = Some v.
Proof.
  intros Has Hne Hc Hget. destruct (decide (ret < 0)).
  - by apply assign_charmap_failed in Has as [-> _].
  - apply assign_charmap_success in Has as (_&_&_&Hlen&_&Hkeep&_); [|lia].
    split; [lia|]. by apply Hkeep.
Qed.

Lemma generate_charmap_other mem t c' t' ret codepoint v :
  TCOD_tileset_generate_charmap mem t c' = Some (t', ret) →
  codepoint ≠ c' →
  0 ≤ codepoint < character_map_length t →
  TCOD_tileset_get_charmap t codepoint = Some v →
  0 ≤ codepoint < character_map_length t'
  ∧ TCOD_tileset_get_charmap t' codepoint = Some v.
Proof.
  intros [(_&_&->)|[(?&_&_&_&_&_&->)|(?&t1&_&_&Ha&Has)]]%generate_charmap_inv
    Hne Hc Hget; try done.
  apply arena_outcome_frame in Ha as (_ & _ & Hcm & Hl).
  eapply assign_charmap_other; [exact Has|done| |].
  - simpl. lia.
  - rewrite <- Hget. by apply get_charmap_ext.
Qed.

Lemma set_tile_other mem t c' buffer t' status log codepoint v :
  TCOD_tileset_set_tile_ mem t c' buffer = Some (t', status, log) →
  codepoint ≠ c' →
  0 ≤ codepoint < character_map_length t →
  TCOD_tileset_get_charmap t codepoint = Some v →
  0 ≤ codepoint < character_map_length t'
  ∧ TCOD_tileset_get_charmap t' codepoint = Some v.
Proof.
  intros (v' & t1 & tid & _ & Hres & Hout)%set_tile_inv Hne Hc Hget.
  assert (0 ≤ codepoint < character_map_length t1
          ∧ TCOD_tileset_get_charmap t1 codepoint = Some v) as H1.
  { destruct Hres as [(_&->&_)|[_ Hg]]; [done|].
    by eapply generate_charmap_other. }
  destruct Hout as [(_ & -> & _)|(_ & px & _ & -> & _)]; done.
Qed.

Lemma run_call_other k t t' codepoint v :
  run_call k t = Some t' →
  call_codepoint k ≠ Some codepoint →
  0 ≤ codepoint < character_map_length t →
  TCOD_tileset_get_charmap t codepoint = Some v →
  0 ≤ codepoint < character_map_length t'
  ∧ TCOD_tileset_get_charmap t' codepoint = Some v.
Proof.
  destruct k as [mem c' tid|mem c' buffer|node|p changed deleted|p]; simpl.
  - destruct (TCOD_tileset_assign_charmap _ _ _ _) as [[t1 ret]|] eqn:Has;
      [|done].
    intros [= <-] Hne ??. eapply assign_charmap_other; eauto. congruence.
  - destruct (TCOD_tileset_set_tile_ _ _ _ _) as [[[t1 st] log]|] eqn:Hs;
      [|done].
    intros [= <-] Hne ??. eapply set_tile_other; eauto. congruence.
  - intros [= <-] _ ??. done.
  - intros [= <-] _ ??. done.
  - intros [= <-] _ ??. unfold TCOD_tileset_observer_delete.
    destruct (unlink _ _) as [[o rest]|]; done.
Qed.

Lemma run_other calls t t' codepoint v :
  run calls t = Some t' →
  Forall (λ k, call_codepoint k ≠ Some codepoint) calls →
  0 ≤ codepoint < character_map_length t →
  TCOD_tileset_get_charmap t codepoint = Some v →
  0 ≤ codepoint < character_map_length t'
  ∧ TCOD_tileset_get_charmap t' codepoint = Some v.
Proof.
  revert t. induction calls as [|k calls IH]; intros t; simpl.
  { by intros [= <-]. }
  destruct (run_call k t) as [t1|] eqn:Hk; [|done]. simpl.
  intros Hrun [Hne Hall]%Forall_cons Hc Hget.
  destruct (run_call_other _ _ _ _ _ Hk Hne Hc Hget) as [Hc1 Hget1].
  by eapply IH.
Qed.

(** C6: after a successful assignment of codepoint [c] to tile [t] (which
    requires [c >= 0] and [0 <= t < tiles_count]) the lookup of [c] gives
    [t], at once and after any further calls that do not assign or write
    [c]; when the assignment grew the charmap, the mappings stored before
    are unchanged and the added slots, [c] apart, read 0. *)
Theorem assigned_mapping_is_kept mem t codepoint tile_id t1 ret :
  TCOD_tileset_assign_charmap mem t codepoint tile_id = Some (t1, ret) →
  0 ≤ ret →
  (0 ≤ codepoint ∧ 0 ≤ tile_id < tiles_count t ∧ ret = tile_id)
  ∧ TCOD_tileset_get_charmap t1 codepoint = Some tile_id
  ∧ (∀ calls t2,
       Forall (λ k, call_codepoint k ≠ Some codepoint) calls →
       run calls t1 = Some t2 →
       TCOD_tileset_get_charmap t2 codepoint = Some tile_id)
  ∧ (∀ c v, c ≠ codepoint → 0 ≤ c < character_map_length t →
       TCOD_tileset_get_charmap t c = Some v →
       TCOD_tileset_get_charmap t1 c = Some v)
  ∧ (∀ c, c ≠ codepoint →
       character_map_length t ≤ c < character_map_length t1 →
       TCOD_tileset_get_charmap t1 c = Some 0).
Proof.
  intros Has Hret.
  pose proof (assign_charmap_success _ _ _ _ _ _ Has Hret)
    as (-> & Hc & Htid & Hlen & Hget & Hkeep & Hzero).
  split_and!; try done || lia.
  intros calls t2 Hall Hrun.
  assert (0 ≤ codepoint < character_map_length t1) as Hin.
  { apply get_charmap_Some in Hget as [[? _]|[? _]]; lia. }
  by destruct (run_other _ _ _ _ _ Hrun Hall Hin Hget).
Qed.

Lemma assigned_mapping_is_kept_witness :
  ∃ t t1 t2,
    blank_assigned = Some t
    ∧ TCOD_tileset_assign_charmap (Some (λ _, 77)) t 600 1 = Some (t1, 1)
    ∧ run [Assign None 65 1; SetTile leftovers 66 [RGBA 1 1 1 1];
           Assign (Some (λ _, 77)) 5000 2] t1 = Some t2
    ∧ TCOD_tileset_get_charmap t1 600 = Some 1
    ∧ TCOD_tileset_get_charmap t2 600 = Some 1
    ∧ TCOD_tileset_get_charmap t1 300 = Some 1
    ∧ TCOD_tileset_get_charmap t1 1000 = Some 0.
Proof.
  eexists _, _, _. split; [vm_compute; reflexivity|].
  lazymatch goal with
  | |- TCOD_tileset_assign_charmap _ ?t _ _ = _ ∧ _ => set (t0 := t)
  end.
  split; [vm_compute; reflexivity|]. split; [vm_compute; reflexivity|].
  lazymatch goal with
  | |- TCOD_tileset_get_charmap ?t1 _ = _
       ∧ TCOD_tileset_get_charmap ?t2 _ = _ ∧ _ =>
      destruct (assigned_mapping_is_kept (Some (λ _, 77)) t0 600 1 t1 1)
        as (_ & Hget & Hrun & Hkeep & Hzero);
        [vm_compute; reflexivity|lia|];
      split; [exact Hget|];
      split; [apply (Hrun [Assign None 65 1;
                           SetTile leftovers 66 [RGBA 1 1 1 1];
                           Assign (Some (λ _, 77)) 5000 2] t2);
              [repeat constructor; discriminate|vm_compute; reflexivity]|];
      split; [apply Hkeep; [lia|simpl; lia|vm_compute; reflexivity]|];
      apply Hzero; [lia|simpl; lia]
  end.
Defined.

(** ** The capacity of the arena *)

Lemma generate_charmap_capacity mem t codepoint t' ret :
  TCOD_tileset_generate_charmap mem t codepoint = Some (t', ret) →
  tiles_capacity t' = tiles_capacity t
  ∨ (tiles_count t = tiles_capacity t
     ∧ tiles_capacity t' = grown_capacity t).
Proof.
  intros [(_&_&->)|[(?&_&_&_&_&_&->)|(?&t1&_&_&Ha&Has)]]%generate_charmap_inv;
    [by left..|].
  apply assign_charmap_same_frame in Has as (_ & _ & _ & ->). simpl.
  by destruct (arena_outcome_capacity _ _ _ Ha) as [[-> _]|[? ->]];
    [left|right].
Qed.

Lemma set_tile_capacity mem t codepoint buffer t' status log :
  TCOD_tileset_set_tile_ mem t codepoint buffer = Some (t', status, log) →
  tiles_capacity t' = tiles_capacity t
  ∨ (tiles_count t = tiles_capacity t
     ∧ tiles_capacity t' = grown_capacity t).
Proof.
  intros (v & t1 & tid & _ & Hres & Hout)%set_tile_inv.
  assert (tiles_capacity t' = tiles_capacity t1) as ->.
  { by destruct Hout as [(_ & -> & _)|(_ & px & _ & -> & _)]. }
  destruct Hres as [(_&->&_)|[_ Hg]]; [by left|].
  by eapply generate_charmap_capacity.
Qed.

Lemma grown_capacity_doubled t :
  doubled_from_floor (tiles_capacity t) →
  doubled_from_floor (grown_capacity t).
Proof.
  unfold grown_capacity, doubled_from_floor, DEFAULT_TILES_LENGTH.
  intros [->|[k ->]]; right.
  - exists 0%nat. simpl. lia.
  - assert (0 < 2 ^ Z.of_nat k) by (apply Z.pow_pos_nonneg; lia).
    rewrite decide_False by lia. exists (S k).
    rewrite Nat2Z.inj_succ, Z.pow_succ_r by lia. lia.
Qed.

Lemma run_call_capacity k t t' :
  run_call k t = Some t' →
  doubled_from_floor (tiles_capacity t) →
  doubled_from_floor (tiles_capacity t').
Proof.
  destruct k as [mem c tid|mem c buffer|node|p changed deleted|p]; simpl.
  - destruct (TCOD_tileset_assign_charmap _ _ _ _) as [[t1 ret]|] eqn:Has;
      [|done].
    intros [= <-]. simpl.
    by apply assign_charmap_same_frame in Has as (_ & _ & _ & ->).
  - destruct (TCOD_tileset_set_tile_ _ _ _ _) as [[[t1 st] log]|] eqn:Hs;
      [|done].
    intros [= <-] Hd. simpl.
    destruct (set_tile_capacity _ _ _ _ _ _ _ Hs) as [->|[_ ->]]; [done|].
    by apply grown_capacity_doubled.
  - by intros [= <-].
  - by intros [= <-].
  - intros [= <-]. unfold TCOD_tileset_observer_delete.
    by destruct (unlink _ _) as [[o rest]|].
Qed.

Lemma run_capacity calls t t' :
  run calls t = Some t' →
  doubled_from_floor (tiles_capacity t) →
  doubled_from_floor (tiles_capacity t').
Proof.
  revert t. induction calls as [|k calls IH]; intros t; simpl.
  { by intros [= <-]. }
  destruct (run_call k t) as [t1|] eqn:Hk; [|done]. simpl.
  intros Hrun Hd. eapply IH; [done|]. by eapply run_call_capacity.
Qed.

Lemma take_drop_replicate {A} (l : list A) (off n : nat) (x : A) :
  (∀ i, (i < n)%nat → l !! (off + i)%nat = Some x) →
  take n (drop off l) = replicate n x.
Proof.
  intros Hall. apply list_eq. intros i.
  destruct (decide (i < n)%nat).
  - rewrite lookup_take_lt, lookup_drop, lookup_replicate_2 by done.
    by apply Hall.
  - rewrite lookup_take_ge by lia. symmetry.
    apply lookup_replicate_None. lia.
Qed.

(** When a tile write grows the arena, every tile of the added part other
    than the tile written reads as cleared pixels. *)
Lemma set_tile_grown_cleared mem t codepoint buffer t' status log :
  tileset_wf t →
  TCOD_tileset_set_tile_ mem t codepoint buffer = Some (t', status, log) →
  tiles_capacity t' ≠ tiles_capacity t →
  ∀ tile_id j,
    TCOD_tileset_get_charmap t' codepoint = Some tile_id →
    tiles_capacity t ≤ j < tiles_capacity t' → j ≠ tile_id →
    tile_block t' j
    = replicate (Z.to_nat (tile_length t)) (RGBA 0 0 0 0).
Proof.
  intros Hwf Hs Hcap tile_id j Hget Hj Hne.
  pose proof (set_tile_same_frame _ _ _ _ _ _ _ Hs) as (_&_&Htl'&_).
  pose proof Hs as (v & t1 & tid & _ & Hres & Hout)%set_tile_inv.
  assert (tiles_capacity t' = tiles_capacity t1) as Hc1.
  { by destruct Hout as [(_ & -> & _)|(_ & px & _ & -> & _)]. }
  destruct Hres as [(_&->&_)|[_ Hg]]; [done|].
  pose proof (generate_charmap_same_frame _ _ _ _ _ Hg) as (_&_&Htl1&_).
  assert (∀ idx : nat,
            tiles_capacity t * tile_length t ≤ Z.of_nat idx
            < tiles_capacity t' * tile_length t →
            pixels t1 !! idx = Some (RGBA 0 0 0 0)) as Hzero.
  { pose proof Hg as
      [(_&_&->)|[(?&_&_&_&_&_&->)|(?&t0&_&_&Ha&Has)]]%generate_charmap_inv;
      [lia..|].
    apply assign_charmap_same_frame in Has as (_ & Hpx & _ & Hc0).
    simpl in Hpx, Hc0. intros idx Hidx.
    rewrite Hpx, (arena_outcome_lookup _ _ _ idx Ha).
    rewrite decide_True; [done|]. rewrite <- Hc0, <- Hc1. lia. }
  unfold tile_block. rewrite Htl'.
  pose proof (wf_tile_length t Hwf) as Htl.
  pose proof (wf_tiles_count t Hwf) as Hcnt.
  apply take_drop_replicate. intros i Hi.
  assert (tiles_capacity t * tile_length t
          ≤ Z.of_nat (Z.to_nat (tile_length t * j) + i)
          < tiles_capacity t' * tile_length t) as Hidx by nia.
  destruct Hout as [(_ & -> & _)|(Htid & px & Hcp & -> & _)]; [by apply Hzero|].
  assert (tid = tile_id) as ->.
  { apply generate_charmap_success in Hg as [Hm _]; [|done].
    rewrite (get_charmap_ext t1) in Hget by done. congruence. }
  simpl in *. rewrite (lookup_memcpy_ne _ _ _ _ _ _ _ Hcp); [by apply Hzero|].
  rewrite Htl1. nia.
Qed.

(** ** Loading an atlas *)


Lemma color_fields_eq p q :
  (r p = r q ∧ g p = g q ∧ b p = b q ∧ a p = a q) ↔ p = q.
Proof.
  split; [|by intros ->]. destruct p, q. simpl.
  intros (-> & -> & -> & ->). done.
Qed.







Lemma key_test_keyed font color_key pixel :
  (if color_key : bool then
     key ← load font 0;
     if decide (r key = r pixel ∧ g key = g pixel
                ∧ b key = b pixel ∧ a key = a pixel)
     then Some (RGBA 0 0 0 0) else Some pixel
   else Some pixel)
  = keyed font color_key pixel.
Proof.
  unfold keyed. destruct color_key; [|done].
  destruct (load font 0) as [key|]; [|done]. simpl. f_equal.
  destruct (decide (key = pixel)) as [->|Hne].
  - by rewrite decide_True.
  - rewrite decide_False; [done|]. by intros ?%color_fields_eq.
Qed.


Lemma for_range_ext {S} lo hi (body1 body2 : Z → S → option S) s :
  (∀ i s, lo ≤ i < hi → body1 i s = body2 i s) →
  for_range lo hi body1 s = for_range lo hi body2 s.
Proof.
  intros Hext. unfold for_range.
  assert (∀ i, i ∈ seqZ lo (hi - lo) → lo ≤ i < hi) as Hin.
  { intros i ?%elem_of_seqZ. lia. }
  revert Hin. generalize (Some s). generalize (seqZ lo (hi - lo)).
  intros l. induction l as [|i l IH]; intros acc Hin; [done|]. simpl.
  rewrite IH by (intros; apply Hin; by right). f_equal.
  destruct acc as [s0|]; [|done]. simpl. apply Hext, Hin. by left.
Qed.

Lemma for_range_preserve {S} (Q : S → Prop) lo hi
    (body : Z → S → option S) s s' :
  Q s →
  (∀ i s1 s2, lo ≤ i < hi → Q s1 → body i s1 = Some s2 → Q s2) →
  for_range lo hi body s = Some s' → Q s'.
Proof.
  intros H0 Hstep Hrun. destruct (decide (hi ≤ lo)).
  - rewrite for_range_nil in Hrun by done. by simplify_eq.
  - refine (for_range_ind (λ _, Q) lo hi body s s' _ H0 _ Hrun); [lia|].
    intros i s1 s2 ???. by eapply Hstep.
Qed.

Lemma load_tile_unfold font font_width columns t color_key i buf :
  load_tile font font_width columns t color_key i buf
  = '(has_color, has_alpha) ←
      for_range 0 (tile_height t) (λ y flags,
        for_range 0 (tile_width t) (λ x '(has_color, has_alpha),
          pixel ← font_pixel font font_width columns t i y x;
          let has_alpha :=
            if decide (a pixel ≠ 255) then true else has_alpha in
          let has_color :=
            if decide (r pixel ≠ g pixel ∨ r pixel ≠ b pixel) then true
            else has_color in
          Some (has_color, has_alpha)) flags) (false, false);
    for_range 0 (tile_height t) (λ y pixels,
      for_range 0 (tile_width t) (λ x pixels,
        pixel ← font_pixel font font_width columns t i y x;
        pixel ← keyed font color_key
                  (normalize (negb has_color && negb has_alpha) pixel);
        store pixels (i * tile_length t + y * tile_width t + x) pixel)
        pixels) buf.
Proof.
  unfold load_tile, font_pixel.
  destruct (for_range 0 (tile_height t) _ (false, false)) as [[hc ha]|];
    [|done].
  simpl. apply for_range_ext. intros y b1 _.
  apply for_range_ext. intros x b2 _.
  destruct (load font (_ + x)) as [pixel|]; [|done]. simpl.
  by rewrite key_test_keyed.
Qed.




(** The loader on a decoded image with the arena allocated. *)
Lemma load_unfold font font_width font_height junk mem columns rows n charmap :
  TCOD_tileset_load (Some (font, font_width, font_height)) (Some junk) mem
    columns rows n charmap
  = if decide (to_unsigned columns = 0 ∨ to_unsigned rows = 0) then None
    else
      let t0 :=
        atlas_tileset font_width font_height columns rows
          (realloc junk []
             (font_width `quot` to_unsigned columns
              * (font_height `quot` to_unsigned rows) * (columns * rows))) in
      color_key ← detect_color_key font font_width t0;
      px ← for_range 0 (columns * rows)
             (load_tile font font_width columns t0 color_key) (pixels t0);
      for_range 0 (if charmap is Some _ then n else columns * rows)
        (λ i (result : option TCOD_Tileset),
           match result with
           | None => Some None
           | Some tileset =>
               codepoint ←
                 (match charmap with
                  | Some charmap => load charmap i
                  | None => Some i
                  end);
               '(tileset, status) ←
                 TCOD_tileset_assign_charmap (mem i) tileset codepoint i;
               if decide (status < 0) then Some None
               else Some (Some tileset)
           end)
        (Some (with_pixels t0 (tiles_capacity t0) px)).
Proof. unfold TCOD_tileset_load. case_decide; reflexivity. Qed.

(** What a successful load went through. *)
Lemma load_inv font font_width font_height malloc_pixels mem
    columns rows n charmap t :
  TCOD_tileset_load (Some (font, font_width, font_height)) malloc_pixels mem
    columns rows n charmap = Some (Some t) →
  ∃ junk color_key,
    let t0 :=
      atlas_tileset font_width font_height columns rows
        (realloc junk []
           (font_width `quot` to_unsigned columns
            * (font_height `quot` to_unsigned rows) * (columns * rows))) in
    malloc_pixels = Some junk
    ∧ detect_color_key font font_width t0 = Some color_key
    ∧ for_range 0 (columns * rows)
        (load_tile font font_width columns t0 color_key) (pixels t0)
      = Some (pixels t)
    ∧ tile_width t = tile_width t0 ∧ tile_height t = tile_height t0
    ∧ tile_length t = tile_width t * tile_height t
    ∧ tiles_capacity t = columns * rows ∧ tiles_count t = columns * rows.
Proof.
  destruct malloc_pixels as [junk|];
    [|unfold TCOD_tileset_load; by case_decide].
  rewrite load_unfold. case_decide; [done|]. cbv zeta.
  set (t0 := atlas_tileset font_width font_height columns rows _).
  intros Hrun. exists junk.
  destruct (detect_color_key font font_width t0) as [color_key|] eqn:Hck;
    [|done].
  exists color_key. cbn [mbind option_bind] in Hrun.
  destruct (for_range 0 (columns * rows)
              (load_tile font font_width columns t0 color_key) (pixels t0))
    as [px|] eqn:Hpx; [|done].
  cbn [mbind option_bind] in Hrun.
  set (Q := λ st : option TCOD_Tileset,
    ∀ t, st = Some t →
      pixels t = px ∧ tile_width t = tile_width t0
      ∧ tile_height t = tile_height t0
      ∧ tile_length t = tile_width t * tile_height t
      ∧ tiles_capacity t = columns * rows ∧ tiles_count t = columns * rows).
  assert (Q (Some t)) as HQ.
  { refine (for_range_preserve Q _ _ _ _ _ _ _ Hrun).
    - intros t1 [= <-]. done.
    - intros i [t1|] st2 _ HQ1 Hbody; [|by simplify_eq].
      destruct (match charmap with
                | Some charmap => load charmap i
                | None => Some i
                end) as [codepoint|]; [|done].
      simpl in Hbody.
      destruct (TCOD_tileset_assign_charmap (mem i) t1 codepoint i)
        as [[t2 status]|] eqn:Has; [|done].
      simpl in Hbody. revert Hbody. case_decide; intros [= <-]; [done|].
      intros t3 [= <-].
      apply assign_charmap_same_frame in Has
        as ((Hw & Hh & Hl & _) & Hp & Hc & Hcap).
      destruct (HQ1 t1 eq_refl) as (? & ? & ? & ? & ? & ?).
      split_and!; congruence. }
  destruct (HQ t eq_refl) as (-> & ? & ? & ? & ? & ?).
  split_and!; done.
Qed.




(** C7 (as amended): the write path changes [tiles_capacity] only by
    doubling it, from a floor of 256 when it was 0, so a tileset built by
    [create] and any sequence of assignments, tile writes and observer calls
    has a capacity of 0 or [256 * 2^k]; such a growth clears the added
    tiles, so every tile id of the added part other than the one being
    written reads as all-zero pixels.  The atlas loader instead sets the
    capacity to [columns * rows].  All of this as long as the sizes stay in
    the range of [int]: [tile_width * tile_height], the doubled capacity
    [tiles_capacity * 2] and the number of pixels of the arena,
    [tiles_capacity * tile_length], which bounds the clearing loop, on the
    write path, and the sizes of the image and of the grid in the loader. *)
Theorem arena_capacity_doubles_on_write_path :
  (∀ w h calls t,
     0 ≤ w → 0 ≤ h → in_int (w * h) →
     run calls (TCOD_tileset_new w h) = Some t →
     arena_in_int t →
     doubled_from_floor (tiles_capacity t))
  ∧ (∀ mem t codepoint block t' status log,
       tileset_wf t →
       TCOD_tileset_set_tile_ mem t codepoint block = Some (t', status, log) →
       tiles_capacity t' ≠ tiles_capacity t →
       in_int (tiles_capacity t * 2) →
       in_int (tiles_capacity t' * tile_length t) →
       tiles_capacity t'
       = (if decide (tiles_capacity t = 0) then 256
          else tiles_capacity t * 2)
       ∧ ∀ tile_id j,
           TCOD_tileset_get_charmap t' codepoint = Some tile_id →
           tiles_capacity t ≤ j < tiles_capacity t' → j ≠ tile_id →
           tile_block t' j
           = replicate (Z.to_nat (tile_length t)) (RGBA 0 0 0 0))
  ∧ (∀ font font_width font_height malloc_pixels mem columns rows n charmap t,
       TCOD_tileset_load (Some (font, font_width, font_height)) malloc_pixels
         mem columns rows n charmap = Some (Some t) →
       atlas_in_int font_width font_height columns rows →
       tiles_capacity t = columns * rows).
Proof.
  split_and!.
  - intros w h calls t _ _ _ Hrun _. eapply run_capacity; [done|]. by left.
  - intros mem t codepoint block t' status log Hwf Hs Hcap _ _. split.
    + destruct (set_tile_capacity _ _ _ _ _ _ _ Hs) as [?|[_ ->]]; [done|].
      unfold grown_capacity, DEFAULT_TILES_LENGTH.
      repeat case_decide; lia.
    + by eapply set_tile_grown_cleared.
  - intros ?????????? (junk & ck & Hload)%load_inv _. cbv zeta in Hload.
    by destruct Hload as (_&_&_&_&_&_&?&_).
Qed.

Lemma arena_capacity_doubles_on_write_path_witness :
  ∃ t t',
    run [SetTile leftovers 300 [RGBA 10 20 30 40]; Assign None 65 0]
        (TCOD_tileset_new 1 1) = Some t
    ∧ doubled_from_floor (tiles_capacity t)
    ∧ TCOD_tileset_set_tile_ leftovers (TCOD_tileset_new 1 1) 65
        [RGBA 10 20 30 40] = Some (t', 0, [])
    ∧ tiles_capacity t' = 256
    ∧ tile_block t' 7 = [RGBA 0 0 0 0]
    ∧ ∃ t2,
        load_identity white_then_gray_2x1 2 1 2 1 = Some (Some t2)
        ∧ tiles_capacity t2 = 2 * 1.
Proof.
  destruct arena_capacity_doubles_on_write_path as (Hrun & Hgrow & Hload).
  eexists _, _. split; [vm_compute; reflexivity|].
  split.
  { eapply (Hrun 1 1 [SetTile leftovers 300 [RGBA 10 20 30 40];
                      Assign None 65 0]).
    - lia.
    - lia.
    - unfold in_int, INT_MIN, INT_MAX. lia.
    - vm_compute. reflexivity.
    - unfold arena_in_int, in_int, INT_MIN, INT_MAX. simpl. lia. }
  split; [vm_compute; reflexivity|].
  edestruct (Hgrow leftovers (TCOD_tileset_new 1 1) 65 [RGBA 10 20 30 40])
    as [Hcap Hzero].
  { apply new_wf; lia. }
  { vm_compute. reflexivity. }
  { simpl. lia. }
  { unfold in_int, INT_MIN, INT_MAX. simpl. lia. }
  { unfold in_int, INT_MIN, INT_MAX. simpl. lia. }
  split; [exact Hcap|].
  split.
  { apply (Hzero 1 7); [vm_compute; reflexivity|simpl; lia|lia]. }
  eexists. split; [vm_compute; reflexivity|].
  eapply (Hload white_then_gray_2x1 2 1 (Some (λ _, RGBA 1 2 3 4))
            (λ _, Some (λ _, 77)) 2 1 0 None).
  - vm_compute. reflexivity.
  - unfold atlas_in_int, in_int, INT_MIN, INT_MAX. lia.
Defined.

(** C7 as stated fails: the loader sizes the arena to the number of cells,
    here 1, and the next tile write doubles that to 2; neither is 0 or
    [256 * 2^k]. *)
Lemma atlas_capacity_is_cell_count :
  ∃ t t',
    load_identity black_1x1 1 1 1 1 = Some (Some t)
    ∧ tiles_capacity t = 1
    ∧ ¬ doubled_from_floor (tiles_capacity t)
    ∧ TCOD_tileset_set_tile_ leftovers t 300 [RGBA 5 6 7 8] = Some (t', 0, [])
    ∧ tiles_capacity t' = 2
    ∧ ¬ doubled_from_floor (tiles_capacity t').
Proof.
  assert (∀ c, 0 < c < 256 → ¬ doubled_from_floor c) as Hnot.
  { intros c Hc [->|[k ->]]; [lia|].
    assert (0 < 2 ^ Z.of_nat k) by (apply Z.pow_pos_nonneg; lia).
    unfold DEFAULT_TILES_LENGTH in Hc. lia. }
  eexists _, _. split; [vm_compute; reflexivity|].
  split; [reflexivity|]. split; [apply Hnot; simpl; lia|].
  split; [vm_compute; reflexivity|].
  split; [reflexivity|]. apply Hnot. simpl. lia.
Qed.

(** ** Well-formedness is an invariant *)




(** ** The loader is well defined on a decoded image *)

Lemma for_range_total_inv {S} (Q : S → Prop) lo hi
    (body : Z → S → option S) s :
  Q s →
  (∀ i s1, lo ≤ i < hi → Q s1 → ∃ s2, body i s1 = Some s2 ∧ Q s2) →
  ∃ s', for_range lo hi body s = Some s' ∧ Q s'.
Proof.
  intros H0 Hstep. destruct (decide (hi ≤ lo)).
  { exists s. by rewrite for_range_nil. }
  destruct (for_range_total (λ _, Q) lo hi body s H0 Hstep) as (s' & ? & HQ).
  exists s'. split; [done|]. apply HQ. lia.
Qed.

Lemma for_range2_total_inv {S} (Q : S → Prop) h w
    (body : Z → Z → S → option S) s :
  Q s →
  (∀ y x s1, 0 ≤ y < h → 0 ≤ x < w → Q s1 →
     ∃ s2, body y x s1 = Some s2 ∧ Q s2) →
  ∃ s',
    for_range 0 h (λ y s, for_range 0 w (λ x s, body y x s) s) s = Some s'
    ∧ Q s'.
Proof.
  intros H0 Hstep. apply for_range_total_inv; [done|].
  intros y s1 Hy HQ. apply for_range_total_inv; [done|].
  intros x s2 Hx HQ2. by apply Hstep.
Qed.

(** The pixels that the loader reads lie inside the image. *)
Lemma font_index_bound font_width font_height columns rows i y x :
  0 < columns → 0 < rows → 0 ≤ font_width → 0 ≤ font_height →
  0 ≤ i < columns * rows →
  0 ≤ y < font_height `quot` rows → 0 ≤ x < font_width `quot` columns →
  0 ≤ i `quot` columns * (font_height `quot` rows) * font_width
      + i `rem` columns * (font_width `quot` columns) + y * font_width + x
  < font_width * font_height.
Proof.
  intros Hc Hr Hw Hh Hi Hy Hx.
  assert (0 ≤ i `quot` columns < rows) as Hq.
  { split; [apply Z.quot_pos; lia|]. apply Z.quot_lt_upper_bound; lia. }
  assert (0 ≤ i `rem` columns < columns) as Hm
    by (apply Z.rem_bound_pos; lia).
  assert (rows * (font_height `quot` rows) ≤ font_height) as Hth
    by (apply Z.mul_quot_le; lia).
  assert (columns * (font_width `quot` columns) ≤ font_width) as Htw
    by (apply Z.mul_quot_le; lia).
  set (q := i `quot` columns) in *. set (m := i `rem` columns) in *.
  set (th := font_height `quot` rows) in *.
  set (tw := font_width `quot` columns) in *.
  assert (0 ≤ q * th + y < font_height) as Hrow by nia.
  assert (0 ≤ m * tw + x < font_width) as Hcol by nia.
  nia.
Qed.

Lemma keyed_is_Some font color_key p :
  is_Some (load font 0) → is_Some (keyed font color_key p).
Proof.
  intros [k Hk]. unfold keyed. destruct color_key; [|done].
  rewrite Hk. done.
Qed.

Lemma assign_charmap_ok mem t codepoint tile_id :
  tileset_wf t → 0 ≤ codepoint < 2 ^ 30 → 0 ≤ tile_id < tiles_count t →
  is_Some mem →
  ∃ t', TCOD_tileset_assign_charmap mem t codepoint tile_id
        = Some (t', tile_id).
Proof.
  intros Hwf Hc Htid [junk ->].
  destruct (assign_charmap_defined (Some junk) t codepoint tile_id Hwf)
    as [[t' ret] Has]; [lia|].
  exists t'. pose proof Has as Hinv%assign_charmap_inv.
  destruct Hinv as [[?|[?|[_ ?]]]| |]; done || lia.
Qed.

(** For an image of [font_width * font_height] pixels cut into a grid with
    at most [2^30] cells, with memory available and the identity charmap,
    the loader returns a tileset. *)
Lemma load_defined font font_width font_height junk mem columns rows n :
  0 < columns < 2 ^ 31 → 0 < rows < 2 ^ 31 →
  0 ≤ font_width → 0 ≤ font_height →
  Z.of_nat (length font) = font_width * font_height →
  columns * rows ≤ 2 ^ 30 →
  (∀ i, is_Some (mem i)) →
  ∃ t, TCOD_tileset_load (Some (font, font_width, font_height)) (Some junk)
         mem columns rows n None = Some (Some t).
Proof.
  intros Hc Hr Hw Hh Hfont Hcells Hmem.
  assert (to_unsigned columns = columns) as Huc
    by (apply Z.mod_small; lia).
  assert (to_unsigned rows = rows) as Hur by (apply Z.mod_small; lia).
  rewrite load_unfold, decide_False by lia. cbv zeta.
  rewrite Huc, Hur.
  set (tw := font_width `quot` columns).
  set (th := font_height `quot` rows).
  assert (0 ≤ tw) as Htw by (apply Z.quot_pos; lia).
  assert (0 ≤ th) as Hth by (apply Z.quot_pos; lia).
  set (t0 := atlas_tileset _ _ _ _ _).
  assert (tile_width t0 = tw ∧ tile_height t0 = th
          ∧ tile_length t0 = tw * th) as (Hw0 & Hh0 & Hl0).
  { unfold t0, atlas_tileset. simpl. by rewrite Huc, Hur. }
  assert (∀ i y x, 0 ≤ i < columns * rows → 0 ≤ y < th → 0 ≤ x < tw →
            is_Some (font_pixel font font_width columns t0 i y x)) as Hpx.
  { intros i y x Hi Hy Hx. unfold font_pixel. rewrite Hw0, Hh0.
    apply load_is_Some. rewrite Hfont. unfold tw, th in *.
    apply font_index_bound; lia. }
  assert (∀ y x, 0 ≤ y < th → 0 ≤ x < tw →
            is_Some (load font (y * font_width + x))
            ∧ is_Some (load font 0)) as Hcell0.
  { intros y x Hy Hx.
    pose proof (font_index_bound font_width font_height columns rows 0 y x)
      as Hb.
    rewrite Z.quot_0_l, Z.rem_0_l in Hb by lia. simpl in Hb.
    split; apply load_is_Some; rewrite Hfont; nia. }
  (* the key loop *)
  destruct (for_range2_total_inv (λ _ : bool, True) (tile_height t0)
              (tile_width t0)
              (λ y x (color_key : bool),
                 pixel ← load font (y * font_width + x);
                 if color_key then
                   key ← load font 0;
                   if decide (r pixel ≠ r key ∨ g pixel ≠ g key
                              ∨ b pixel ≠ b key ∨ a pixel ≠ a key)
                   then Some false else Some true
                 else Some false) true I) as (ck & Hck & _).
  { rewrite Hw0, Hh0. intros y x ck Hy Hx _.
    destruct (Hcell0 y x Hy Hx) as [[p ->] [k ->]]. simpl.
    destruct ck; [case_decide|]; eauto. }
  change (detect_color_key font font_width t0 = Some ck) in Hck.
  rewrite Hck. cbn [mbind option_bind].
  (* the loop over the cells *)
  destruct (for_range_total_inv
              (λ b : list TCOD_ColorRGBA,
                 Z.of_nat (length b) = tw * th * (columns * rows))
              0 (columns * rows)
              (load_tile font font_width columns t0 ck) (pixels t0))
    as (px & Hload & Hlen).
  { unfold t0, atlas_tileset. simpl. rewrite realloc_length. nia. }
  { intros i b1 Hi Hb1. rewrite load_tile_unfold.
    destruct (for_range2_total_inv (λ _ : bool * bool, True)
                (tile_height t0) (tile_width t0)
                (λ y x '(has_color, has_alpha),
                   pixel ← font_pixel font font_width columns t0 i y x;
                   let has_alpha :=
                     if decide (a pixel ≠ 255) then true else has_alpha in
                   let has_color :=
                     if decide (r pixel ≠ g pixel ∨ r pixel ≠ b pixel)
                     then true else has_color in
                   Some (has_color, has_alpha)) (false, false) I)
      as ([hc ha] & Hana & _).
    { rewrite Hw0, Hh0. intros y x [hc ha] Hy Hx _.
      destruct (Hpx i y x Hi Hy Hx) as [p ->]. simpl. eauto. }
    rewrite Hana. cbn [mbind option_bind].
    apply (for_range2_total_inv
             (λ b : list TCOD_ColorRGBA,
                Z.of_nat (length b) = tw * th * (columns * rows))
             (tile_height t0) (tile_width t0)
             (λ y x pixels,
                pixel ← font_pixel font font_width columns t0 i y x;
                pixel ← keyed font ck (normalize (negb hc && negb ha) pixel);
                store pixels (i * tile_length t0 + y * tile_width t0 + x)
                  pixel)); [done|].
    rewrite Hw0, Hh0, Hl0. intros y x b2 Hy Hx Hb2.
    destruct (Hpx i y x Hi Hy Hx) as [p ->]. simpl.
    destruct (keyed_is_Some font ck (normalize (negb hc && negb ha) p))
      as [v ->]; [by apply (Hcell0 y x)|].
    simpl. eexists. split.
    - apply store_Some. split; [|done]. rewrite Hb2.
      assert (0 ≤ y * tw + x < tw * th) by nia.
      assert (0 ≤ i * (tw * th)
              ∧ i * (tw * th) + tw * th ≤ tw * th * (columns * rows)) by nia.
      lia.
    - by rewrite length_insert. }
  rewrite Hload. cbn [mbind option_bind].
  (* the charmap *)
  destruct (for_range_total
              (λ i (st : option TCOD_Tileset),
                 ∃ t, st = Some t ∧ tileset_wf t
                      ∧ tiles_count t = columns * rows)
              0 (columns * rows)
              (λ i (result : option TCOD_Tileset),
                 match result with
                 | None => Some None
                 | Some tileset =>
                     codepoint ← Some i;
                     '(tileset, status) ←
                       TCOD_tileset_assign_charmap (mem i) tileset
                         codepoint i;
                     if decide (status < 0) then Some None
                     else Some (Some tileset)
                 end)
              (Some (with_pixels t0 (tiles_capacity t0) px)))
    as (st & Hrun & Hst).
  { eexists. split; [done|]. split; [|done].
    split; simpl; rewrite ?Huc, ?Hur; fold tw th; try done; nia. }
  { intros i st1 Hi (t1 & -> & Hwf1 & Hcnt1). simpl.
    destruct (assign_charmap_ok (mem i) t1 i i Hwf1) as [t2 Has];
      [lia|lia|done|].
    rewrite Has. simpl. rewrite decide_False by lia.
    eexists. split; [done|]. exists t2. split; [done|].
    split; [by eapply assign_charmap_wf|].
    by apply assign_charmap_same_frame in Has as (_ & _ & -> & _). }
  destruct Hst as (t & -> & _); [nia|].
  exists t. exact Hrun.
Qed.

(** * Further properties of the functions of [tileset.c] *)

(** ** [TCOD_tileset_assign_charmap] *)

Lemma double_until_least fuel codepoint len len' :
  double_until fuel codepoint len = Some len' →
  ∃ k : nat,
    len' = len * 2 ^ Z.of_nat k ∧ codepoint < len'
    ∧ (k = 0%nat ∨ len * 2 ^ (Z.of_nat k - 1) ≤ codepoint).
Proof.
  revert len. induction fuel as [|fuel IH]; intros len; simpl.
  - case_decide; [done|]. intros [= <-]. exists 0%nat.
    split_and!; [simpl; lia|lia|by left].
  - case_decide as Hge.
    + case_decide; [|done]. intros (k & -> & Hlt & Hmin)%IH.
      exists (S k). rewrite Nat2Z.inj_succ, Z.pow_succ_r by lia.
      split_and!; [lia|lia|]. right.
      replace (Z.succ (Z.of_nat k) - 1) with (Z.of_nat k) by lia.
      destruct k as [|k]; [simpl; lia|].
      destruct Hmin as [?|Hmin]; [done|].
      rewrite Nat2Z.inj_succ in Hmin |- *.
      replace (Z.succ (Z.of_nat k) - 1) with (Z.of_nat k) in Hmin by lia.
      rewrite Z.pow_succ_r by lia. lia.
    + intros [= <-]. exists 0%nat. split_and!; [simpl; lia|lia|by left].
Qed.

Lemma assign_charmap_grown_length mem t codepoint tile_id t' ret :
  TCOD_tileset_assign_charmap mem t codepoint tile_id = Some (t', ret) →
  0 ≤ ret → codepoint >= character_map_length t →
  double_until 64 codepoint (charmap_start_length t)
  = Some (character_map_length t').
Proof.
  unfold TCOD_tileset_assign_charmap, charmap_start_length.
  case_decide; [intros [= <- <-]; lia|].
  case_decide; [intros [= <- <-]; lia|].
  intros Hrun Hret Hge. rewrite decide_True in Hrun by done.
  destruct (double_until _ _ _) as [new_length|] eqn:Hd; [|done].
  simpl in Hrun. destruct mem as [junk|]; [|simplify_eq; lia].
  destruct (fill _ _ _ _) as [cm|]; [|done]. simpl in Hrun.
  destruct (store cm codepoint tile_id) as [cm'|]; [|done].
  simpl in Hrun. by simplify_eq.
Qed.

(** X1: [TCOD_tileset_assign_charmap] returns [-1] exactly when the tile id
    is outside [[0, tiles_count)], or the codepoint is negative, or the
    charmap has to grow and the allocation fails; then the tileset is left
    as it was.  Otherwise it returns the tile id. *)
Theorem assign_charmap_fails_cleanly mem t codepoint tile_id t' ret :
  TCOD_tileset_assign_charmap mem t codepoint tile_id = Some (t', ret) →
  (ret < 0 ↔
     (tile_id < 0 ∨ tile_id >= tiles_count t) ∨ codepoint < 0
     ∨ (codepoint >= character_map_length t ∧ mem = None))
  ∧ (ret < 0 → ret = -1 ∧ t' = t)
  ∧ (0 ≤ ret → ret = tile_id).
Proof.
  intros Has. pose proof Has as Hinv%assign_charmap_inv.
  split_and!.
  - destruct Hinv as [Hrej|Htid Hc _|junk nl cm k Htid Hc _ -> _ _].
    + split; [done|lia].
    + split; [lia|]. intros [?|[?|[? _]]]; lia.
    + split; [lia|]. intros [?|[?|[_ ?]]]; [lia|lia|done].
  - intros ?. by apply assign_charmap_failed in Has as [-> ->].
  - intros ?. by apply assign_charmap_success in Has as (-> & _).
Qed.

Lemma assign_charmap_fails_cleanly_witness :
  ∃ t,
    blank_assigned = Some t
    ∧ TCOD_tileset_assign_charmap None t 65 2 = Some (t, -1)
    ∧ TCOD_tileset_assign_charmap None t (-3) 1 = Some (t, -1)
    ∧ TCOD_tileset_assign_charmap None t 512 1 = Some (t, -1)
    ∧ (-1 < 0 ↔
         (2 < 0 ∨ 2 >= tiles_count t) ∨ 65 < 0
         ∨ (65 >= character_map_length t ∧ None = @None (nat → Z))).
Proof.
  eexists. split; [vm_compute; reflexivity|].
  split; [vm_compute; reflexivity|]. split; [vm_compute; reflexivity|].
  split; [vm_compute; reflexivity|].
  lazymatch goal with
  | |- _ ↔ (_ ∨ _ >= tiles_count ?t) ∨ _ =>
      apply (assign_charmap_fails_cleanly None t 65 2 t (-1))
  end.
  vm_compute. reflexivity.
Defined.

(** X2: a successful assignment leaves the length of the charmap alone when
    the codepoint is inside it; otherwise the new length is the first of
    [len, 2 len, 4 len, ...] that exceeds the codepoint, [len] being 256 for
    an empty charmap and the current length otherwise. *)
Theorem assign_charmap_grows_to_least_doubling
    mem t codepoint tile_id t' ret :
  TCOD_tileset_assign_charmap mem t codepoint tile_id = Some (t', ret) →
  0 ≤ ret →
  (codepoint < character_map_length t →
     character_map_length t' = character_map_length t)
  ∧ (codepoint >= character_map_length t →
       ∃ k : nat,
         character_map_length t' = charmap_start_length t * 2 ^ Z.of_nat k
         ∧ codepoint < character_map_length t'
         ∧ (k = 0%nat
            ∨ charmap_start_length t * 2 ^ (Z.of_nat k - 1) ≤ codepoint)).
Proof.
  intros Has Hret. split.
  - intros Hlt. apply assign_charmap_inv in Has.
    destruct Has; simpl; lia.
  - intros Hge.
    pose proof (assign_charmap_grown_length _ _ _ _ _ _ Has Hret Hge) as Hd.
    by apply double_until_least in Hd.
Qed.

Lemma assign_charmap_grows_to_least_doubling_witness :
  ∃ t t1 t2,
    blank_assigned = Some t
    ∧ character_map_length t = 512
    ∧ TCOD_tileset_assign_charmap (Some (λ _, 77)) t 1100 1 = Some (t1, 1)
    ∧ character_map_length t1 = 2048
    ∧ TCOD_tileset_assign_charmap None t 511 1 = Some (t2, 1)
    ∧ character_map_length t2 = 512
    ∧ ∃ k : nat,
        character_map_length t1 = charmap_start_length t * 2 ^ Z.of_nat k
        ∧ 1100 < character_map_length t1
        ∧ (k = 0%nat ∨ charmap_start_length t * 2 ^ (Z.of_nat k - 1) ≤ 1100).
Proof.
  eexists _, _, _. split; [vm_compute; reflexivity|].
  lazymatch goal with
  | |- character_map_length ?t = _ ∧ _ => set (t0 := t)
  end.
  split; [reflexivity|]. split; [vm_compute; reflexivity|].
  split; [reflexivity|]. split; [vm_compute; reflexivity|].
  split; [reflexivity|].
  lazymatch goal with
  | |- ∃ k : nat, character_map_length ?t1 = _ ∧ _ =>
      apply (assign_charmap_grows_to_least_doubling (Some (λ _, 77))
               t0 1100 1 t1 1)
  end.
  - vm_compute. reflexivity.
  - lia.
  - simpl. lia.
Defined.




(** ** What sequences of calls keep *)

Lemma assign_charmap_length_step mem t codepoint tile_id t' ret :
  TCOD_tileset_assign_charmap mem t codepoint tile_id = Some (t', ret) →
  character_map_length t ≤ character_map_length t'
  ∧ (charmap_length_doubled (character_map_length t) →
     charmap_length_doubled (character_map_length t')).
Proof.
  intros H%assign_charmap_inv.
  destruct H as [| |junk nl cm k Htid Hc Hlt -> Hk Hfill]; [done..|].
  simpl. split; [lia|]. intros Hd. right. subst nl.
  unfold charmap_length_doubled, DEFAULT_CHARMAP_LENGTH in *.
  destruct Hd as [->|[j Hj]].
  - exists k. by rewrite decide_True.
  - assert (0 < 2 ^ Z.of_nat j) by (apply Z.pow_pos_nonneg; lia).
    rewrite decide_False by lia. exists (j + k)%nat.
    rewrite Hj, Nat2Z.inj_add, Z.pow_add_r by lia. lia.
Qed.

Lemma set_tile_length_step mem t codepoint buffer t' status log :
  TCOD_tileset_set_tile_ mem t codepoint buffer = Some (t', status, log) →
  character_map_length t ≤ character_map_length t'
  ∧ (charmap_length_doubled (character_map_length t) →
     charmap_length_doubled (character_map_length t')).
Proof.
  intros (v & t1 & tid & _ & Hres & Hout)%set_tile_inv.
  assert (character_map_length t' = character_map_length t1) as ->.
  { by destruct Hout as [(_ & -> & _)|(_ & px & _ & -> & _)]. }
  destruct Hres as [(_&->&_)|[_ Hg]]; [done|].
  apply generate_charmap_inv in Hg
    as [(_&_&->)|[(?&_&_&_&_&_&->)|(?&t0&_&_&Ha&Has)]]; [done..|].
  apply arena_outcome_frame in Ha as (_ & _ & _ & Hl).
  apply assign_charmap_length_step in Has. simpl in Has.
  by rewrite Hl in Has.
Qed.

Lemma run_call_length_step k t t' :
  run_call k t = Some t' →
  character_map_length t ≤ character_map_length t'
  ∧ (charmap_length_doubled (character_map_length t) →
     charmap_length_doubled (character_map_length t')).
Proof.
  destruct k as [mem c tid|mem c buffer|node|p changed deleted|p]; simpl.
  - destruct (TCOD_tileset_assign_charmap _ _ _ _) as [[t1 ret]|] eqn:Has;
      [|done].
    intros [= <-]. by eapply assign_charmap_length_step.
  - destruct (TCOD_tileset_set_tile_ _ _ _ _) as [[[t1 st] log]|] eqn:Hs;
      [|done].
    intros [= <-]. by eapply set_tile_length_step.
  - by intros [= <-].
  - by intros [= <-].
  - intros [= <-]. unfold TCOD_tileset_observer_delete.
    by destruct (unlink _ _) as [[o rest]|].
Qed.

(** X4: over any sequence of assignments, tile writes and observer calls
    the length of the charmap never decreases, and a length that is 0 or
    [256 * 2^k] stays of that form; so it is for every tileset that starts
    with [create]. *)
Theorem charmap_length_only_doubles calls t t' :
  run calls t = Some t' →
  character_map_length t ≤ character_map_length t'
  ∧ (charmap_length_doubled (character_map_length t) →
     charmap_length_doubled (character_map_length t')).
Proof.
  revert t. induction calls as [|k calls IH]; intros t; simpl.
  { by intros [= <-]. }
  destruct (run_call k t) as [t1|] eqn:Hk; [|done]. simpl.
  intros [Hle Hd]%IH. apply run_call_length_step in Hk as [Hle1 Hd1].
  split; [lia|]. intros ?. by apply Hd, Hd1.
Qed.

Lemma charmap_length_only_doubles_witness :
  ∃ t,
    run [SetTile leftovers 300 [RGBA 10 20 30 40]; Assign None 65 0;
         Assign (Some (λ _, 77)) 1100 1] (TCOD_tileset_new 1 1) = Some t
    ∧ character_map_length t = 2048
    ∧ character_map_length (TCOD_tileset_new 1 1) ≤ character_map_length t
    ∧ charmap_length_doubled (character_map_length t).
Proof.
  eexists. split; [vm_compute; reflexivity|]. split; [reflexivity|].
  lazymatch goal with
  | |- _ ≤ character_map_length ?t ∧ _ =>
      destruct (charmap_length_only_doubles
                  [SetTile leftovers 300 [RGBA 10 20 30 40]; Assign None 65 0;
                   Assign (Some (λ _, 77)) 1100 1] (TCOD_tileset_new 1 1) t)
        as [Hle Hd]; [vm_compute; reflexivity|]
  end.
  split; [exact Hle|]. apply Hd. by left.
Defined.





(** X8: on a well-formed tileset [TCOD_tileset_get_tile_] reports not-found
    ([-1]) exactly for the codepoints outside [[0, character_map_length)]
    and then leaves the buffer alone; for every codepoint inside the charmap
    it returns 0 and copies the block of the codepoint's tile, which is a
    tile in use, to the front of the buffer. *)
Theorem get_tile_finds_exactly_the_charmap_range t codepoint out :
  tileset_wf t → tile_length t ≤ Z.of_nat (length out) →
  (codepoint < 0 ∨ codepoint >= character_map_length t →
     TCOD_tileset_get_tile_ t codepoint (Some out) = Some (-1, Some out)
     ∧ TCOD_tileset_get_tile_ t codepoint None = Some (-1, None))
  ∧ (0 ≤ codepoint < character_map_length t →
       ∃ tile_id,
         TCOD_tileset_get_charmap t codepoint = Some tile_id
         ∧ 0 ≤ tile_id < tiles_count t
         ∧ TCOD_tileset_get_tile_ t codepoint (Some out)
           = Some (0, Some (tile_block t tile_id
                            ++ drop (Z.to_nat (tile_length t)) out))
         ∧ TCOD_tileset_get_tile_ t codepoint None = Some (0, None)).
Proof.
  intros Hwf Hout. split.
  - intros Hc. unfold TCOD_tileset_get_tile_, TCOD_tileset_get_tile,
      TCOD_tileset_get_charmap.
    by rewrite decide_True by lia.
  - intros Hc.
    destruct (get_charmap_defined t codepoint Hwf) as (v & Hv & _).
    pose proof Hv as [[_ ?]|[_ Hl]]%get_charmap_Some; [lia|].
    apply load_Some in Hl as [_ Hl].
    pose proof (Forall_lookup_1 _ _ _ _ (wf_entries t Hwf) Hl) as Hr.
    simpl in Hr. exists v. split_and!; [done|lia|lia| |].
    + destruct Hwf as [? ? Hpx _ _ _].
      apply get_tile_mapped; [done|lia|done| |done]. rewrite Hpx. nia.
    + unfold TCOD_tileset_get_tile_, TCOD_tileset_get_tile. rewrite Hv.
      simpl. by rewrite decide_False by lia.
Qed.

Lemma get_tile_finds_exactly_the_charmap_range_witness :
  ∃ t,
    blank_assigned = Some t
    ∧ TCOD_tileset_get_tile_ t 512 (Some [RGBA 9 9 9 9])
      = Some (-1, Some [RGBA 9 9 9 9])
    ∧ TCOD_tileset_get_tile_ t 300 (Some [RGBA 9 9 9 9])
      = Some (0, Some [RGBA 10 20 30 40]).
Proof.
  eexists. split; [vm_compute; reflexivity|].
  lazymatch goal with
  | |- TCOD_tileset_get_tile_ ?t _ _ = _ ∧ _ =>
      assert (tileset_wf t) as Hwf
        by (split; apply (bool_decide_unpack _); vm_compute; exact I);
      destruct (get_tile_finds_exactly_the_charmap_range t 512
                  [RGBA 9 9 9 9] Hwf) as [Hout _]; [simpl; lia|];
      destruct (get_tile_finds_exactly_the_charmap_range t 300
                  [RGBA 9 9 9 9] Hwf) as [_ Hin]; [simpl; lia|]
  end.
  split.
  - apply Hout. simpl. lia.
  - destruct Hin as (tid & Hget & _ & Hcopy & _); [simpl; lia|].
    rewrite Hcopy. vm_compute in Hget. injection Hget as <-. reflexivity.
Defined.

(** ** Failures and frames of [TCOD_tileset_set_tile_] *)

Lemma get_charmap_outside t codepoint :
  codepoint < 0 ∨ codepoint >= character_map_length t →
  TCOD_tileset_get_charmap t codepoint = Some (-1).
Proof.
  intros ?. unfold TCOD_tileset_get_charmap. by rewrite decide_True.
Qed.

Lemma set_tile_outside_unfold mem t codepoint buffer :
  codepoint < 0 ∨ codepoint >= character_map_length t →
  TCOD_tileset_set_tile_ mem t codepoint buffer
  = '(tileset, tile_id) ← TCOD_tileset_generate_charmap mem t codepoint;
    if decide (tile_id < 0) then Some (tileset, tile_id, [])
    else
      tile ← memcpy (pixels tileset) (tile_length tileset * tile_id)
                    buffer 0 (tile_length tileset);
      let tileset := with_pixels tileset (tiles_capacity tileset) tile in
      let '(err, log) :=
        notify_observers (observer_list tileset) tile_id codepoint in
      Some (tileset, err, log).
Proof.
  intros Hc. unfold TCOD_tileset_set_tile_.
  by rewrite (get_charmap_outside _ _ Hc).
Qed.



(** X10: when a tile has to be generated for a codepoint outside the charmap,
    the arena is full and cannot be reallocated, the tile write returns
    [-1], notifies nobody and leaves the tileset exactly as it was. *)
Theorem set_tile_without_arena_memory_changes_nothing
    mem t codepoint buffer :
  codepoint < 0 ∨ codepoint >= character_map_length t →
  tiles_count t = tiles_capacity t →
  realloc_pixels mem = None →
  TCOD_tileset_set_tile_ mem t codepoint buffer = Some (t, -1, []).
Proof.
  intros Hc Hfull Hmem. rewrite set_tile_outside_unfold by done.
  unfold TCOD_tileset_generate_charmap.
  rewrite get_charmap_outside by done. simpl.
  rewrite decide_True by done. by rewrite Hmem.
Qed.

Lemma set_tile_without_arena_memory_changes_nothing_witness :
  TCOD_tileset_set_tile_ {| realloc_pixels := None; realloc_charmap := None |}
    (TCOD_tileset_new 8 8) 65 opaque_gray_8x8
  = Some (TCOD_tileset_new 8 8, -1, []).
Proof.
  apply set_tile_without_arena_memory_changes_nothing.
  - right. simpl. lia.
  - reflexivity.
  - reflexivity.
Defined.





(** X12: codepoints that map to the same tile share its pixels: after a
    successful tile write for [c], reading any codepoint [d] with the same
    tile id returns the block written for [c]. *)
Theorem set_tile_shows_through_shared_tiles
    mem t c d tile_id block out t' log :
  TCOD_tileset_get_charmap t c = Some tile_id →
  TCOD_tileset_get_charmap t d = Some tile_id → 0 ≤ tile_id →
  TCOD_tileset_set_tile_ mem t c block = Some (t', 0, log) →
  tile_length t ≤ Z.of_nat (length out) →
  TCOD_tileset_get_tile_ t' d (Some out)
  = Some (0, Some (take (Z.to_nat (tile_length t)) block
                   ++ drop (Z.to_nat (tile_length t)) out)).
Proof.
  intros Hc Hd Htid Hs Hout.
  destruct (set_tile_mapped_in_place _ _ _ _ _ _ _ _ Hc Htid Hs)
    as (_ & _ & Hcm & Hlen & Hblock).
  assert (TCOD_tileset_get_charmap t' c = Some tile_id) as Hc'
    by (by rewrite (get_charmap_ext t)).
  assert (TCOD_tileset_get_charmap t' d = Some tile_id) as Hd'
    by (by rewrite (get_charmap_ext t)).
  destruct (set_tile_written _ _ _ _ _ _ _ _ Hs Hc' Htid)
    as (t1 & px & Hcp & -> & _ & (_&_&Htl&_) & _).
  pose proof (memcpy_length _ _ _ _ _ _ Hcp) as Hl.
  pose proof Hcp as [Hb _]%memcpy_Some.
  rewrite (get_tile_mapped _ d tile_id out Hd' Htid); simpl; try lia.
  rewrite Hblock. by rewrite Htl.
Qed.

Lemma set_tile_shows_through_shared_tiles_witness :
  ∃ t t',
    blank_assigned = Some t
    ∧ TCOD_tileset_set_tile_ leftovers t 65 [RGBA 5 6 7 8] = Some (t', 0, [])
    ∧ TCOD_tileset_get_tile_ t' 90 (Some [RGBA 9 9 9 9])
      = Some (0, Some [RGBA 5 6 7 8]).
Proof.
  eexists _, _. split; [vm_compute; reflexivity|].
  lazymatch goal with
  | |- TCOD_tileset_set_tile_ _ ?t _ _ = _ ∧ _ => set (t0 := t)
  end.
  split; [vm_compute; reflexivity|].
  eapply (set_tile_shows_through_shared_tiles leftovers t0 65 90 0
            [RGBA 5 6 7 8] [RGBA 9 9 9 9] _ []).
  - vm_compute. reflexivity.
  - vm_compute. reflexivity.
  - lia.
  - vm_compute. reflexivity.
  - simpl. lia.
Defined.

(** X13: the tile id generated by a tile write for a codepoint outside the
    charmap is fresh: it is the old [tiles_count], or 1 on a tileset without
    tiles, never 0; [tiles_count] becomes the id plus one, and no codepoint
    was mapped to it before. *)
Theorem generated_tile_id_is_fresh
    mem t codepoint block t' status log tile_id :
  tileset_wf t →
  codepoint < 0 ∨ codepoint >= character_map_length t →
  TCOD_tileset_set_tile_ mem t codepoint block = Some (t', status, log) →
  TCOD_tileset_get_charmap t' codepoint = Some tile_id → 0 ≤ tile_id →
  tile_id = (if decide (tiles_count t = 0) then 1 else tiles_count t)
  ∧ tiles_count t' = tile_id + 1
  ∧ ∀ d v, TCOD_tileset_get_charmap t d = Some v → v ≠ tile_id.
Proof.
  intros Hwf Hc Hs Hget Htid.
  pose proof (wf_tiles_count t Hwf) as Hcnt.
  destruct (set_tile_written _ _ _ _ _ _ _ _ Hs Hget Htid)
    as (t1 & px & _ & -> & _ & _ & [[_ Hin]|[Hg _]]).
  { rewrite get_charmap_outside in Hin by done. simplify_eq. lia. }
  apply generate_charmap_inv in Hg
    as [(Hin&_&_)|[(?&_&_&_&_&?&_)|(v&t0&_&_&Ha&Has)]].
  { rewrite get_charmap_outside in Hin by done. simplify_eq. lia. }
  { lia. }
  apply arena_outcome_frame in Ha as (_ & Hc0 & _ & _).
  pose proof (assign_charmap_same_frame _ _ _ _ _ _ Has)
    as (_ & _ & Hc1 & _).
  apply assign_charmap_success in Has as (Heq & _); [|done].
  unfold take_tile_id, next_tile_id in *. simpl in *. rewrite Hc0 in *.
  split_and!; [done|lia|].
  intros d w Hd ->.
  destruct (get_charmap_wf_bound _ _ _ Hwf Hd Htid) as [? _].
  case_decide; lia.
Qed.

Lemma generated_tile_id_is_fresh_witness :
  ∃ t t',
    blank_assigned = Some t
    ∧ TCOD_tileset_set_tile_ leftovers t 700 [RGBA 5 6 7 8] = Some (t', 0, [])
    ∧ 2 = (if decide (tiles_count t = 0) then 1 else tiles_count t)
    ∧ tiles_count t' = 2 + 1.
Proof.
  eexists _, _. split; [vm_compute; reflexivity|].
  lazymatch goal with
  | |- TCOD_tileset_set_tile_ _ ?t _ _ = _ ∧ _ => set (t0 := t)
  end.
  split; [vm_compute; reflexivity|].
  lazymatch goal with
  | |- _ ∧ tiles_count ?t' = _ =>
      destruct (generated_tile_id_is_fresh leftovers t0 700 [RGBA 5 6 7 8]
                  t' 0 [] 2) as (Hid & Hcount & _)
  end.
  - split; apply (bool_decide_unpack _); vm_compute; exact I.
  - right. simpl. lia.
  - vm_compute. reflexivity.
  - vm_compute. reflexivity.
  - lia.
  - split; [exact Hid|exact Hcount].
Defined.

(** X14: a tile write for a codepoint inside the charmap of a well-formed
    tileset never generates a tile: whatever the codepoint maps to, also
    tile 0, the block goes to that tile, [tiles_count], [tiles_capacity] and
    the charmap stay as they are, and the allocator is not consulted. *)
Theorem set_tile_in_range_reuses_the_mapped_tile
    mem t codepoint block t' status log :
  tileset_wf t → 0 ≤ codepoint < character_map_length t →
  TCOD_tileset_set_tile_ mem t codepoint block = Some (t', status, log) →
  ∃ tile_id,
    TCOD_tileset_get_charmap t codepoint = Some tile_id ∧ 0 ≤ tile_id
    ∧ TCOD_tileset_get_charmap t' codepoint = Some tile_id
    ∧ tile_block t' tile_id = take (Z.to_nat (tile_length t)) block
    ∧ tiles_count t' = tiles_count t
    ∧ tiles_capacity t' = tiles_capacity t
    ∧ character_map t' = character_map t
    ∧ ∀ mem',
        TCOD_tileset_set_tile_ mem' t codepoint block
        = Some (t', status, log).
Proof.
  intros Hwf Hc Hs.
  destruct (get_charmap_defined t codepoint Hwf) as (v & Hv & _).
  assert (0 ≤ v) as Hpos.
  { pose proof Hv as [[_ ?]|[_ Hl]]%get_charmap_Some; [lia|].
    apply load_Some in Hl as [_ Hl].
    pose proof (Forall_lookup_1 _ _ _ _ (wf_entries t Hwf) Hl) as Hr.
    simpl in Hr. lia. }
  destruct (set_tile_mapped_in_place _ _ _ _ _ _ _ _ Hv Hpos Hs)
    as (Hcnt & Hcap & Hcm & Hlen & Hblock).
  exists v. split_and!; try done.
  - by rewrite (get_charmap_ext t).
  - intros mem'. rewrite <- Hs. unfold TCOD_tileset_set_tile_.
    rewrite Hv. simpl. by rewrite !decide_False by lia.
Qed.

Lemma set_tile_in_range_reuses_the_mapped_tile_witness :
  ∃ t t',
    blank_assigned = Some t
    ∧ TCOD_tileset_set_tile_ leftovers t 300 [RGBA 5 6 7 8] = Some (t', 0, [])
    ∧ ∃ tile_id,
        TCOD_tileset_get_charmap t 300 = Some tile_id ∧ 0 ≤ tile_id
        ∧ TCOD_tileset_get_charmap t' 300 = Some tile_id
        ∧ tile_block t' tile_id = take (Z.to_nat (tile_length t)) [RGBA 5 6 7 8]
        ∧ tiles_count t' = tiles_count t
        ∧ tiles_capacity t' = tiles_capacity t
        ∧ character_map t' = character_map t
        ∧ ∀ mem',
            TCOD_tileset_set_tile_ mem' t 300 [RGBA 5 6 7 8]
            = Some (t', 0, []).
Proof.
  eexists _, _. split; [vm_compute; reflexivity|].
  lazymatch goal with
  | |- TCOD_tileset_set_tile_ _ ?t _ _ = _ ∧ _ => set (t0 := t)
  end.
  split; [vm_compute; reflexivity|].
  apply (set_tile_in_range_reuses_the_mapped_tile leftovers t0 300).
  - split; apply (bool_decide_unpack _); vm_compute; exact I.
  - simpl. lia.
  - vm_compute. reflexivity.
Defined.

(** ** Observers and owners *)

Lemma with_observer_list_id t : with_observer_list t (observer_list t) = t.
Proof. by destruct t. Qed.

(** X15: attaching an observer and detaching it again gives back the
    tileset as it was; the detachment calls the deletion hook the caller
    installed, if any, and then frees the node. *)
Theorem attach_then_detach_restores_the_tileset t p changed deleted :
  ∃ t1,
    TCOD_tileset_observer_new (Some p) t = Some (t1, p)
    ∧ observer_list t1 = Observer p None false :: observer_list t
    ∧ TCOD_tileset_observer_delete
        (observer_set_hooks t1 p changed deleted) p
      = (t, (if deleted then [DeleteHook p] else [])
            ++ [Free (ObserverNode p)]).
Proof.
  eexists. split; [reflexivity|]. split; [reflexivity|].
  unfold TCOD_tileset_observer_delete, observer_set_hooks. simpl.
  rewrite decide_True by done. simpl. rewrite decide_True by done.
  by destruct t.
Qed.

Lemma filter_self_ne (l : list TCOD_TilesetObserver) p :
  p ∉ self <$> l → filter (λ o, self o ≠ p) l = l.
Proof.
  induction l as [|o l IH]; [done|].
  rewrite fmap_cons, not_elem_of_cons. intros [Hne Hnot].
  rewrite filter_cons_True by done. by rewrite IH.
Qed.

Lemma unlink_None (l : list TCOD_TilesetObserver) p : p ∉ self <$> l → unlink l p = None.
Proof.
  induction l as [|o l IH]; [done|].
  rewrite fmap_cons, not_elem_of_cons. intros [Hne Hnot]. simpl.
  rewrite decide_False by done. by rewrite IH.
Qed.

Lemma unlink_Some (l : list TCOD_TilesetObserver) p o :
  NoDup (self <$> l) → o ∈ l → self o = p →
  unlink l p = Some (o, filter (λ o, self o ≠ p) l).
Proof.
  induction l as [|o' l IH]; [by intros _ ?%elem_of_nil|].
  rewrite fmap_cons, NoDup_cons. intros [Hnot Hnd] Hin Hp. simpl.
  destruct (decide (self o' = p)) as [Heq|Hne].
  - assert (o = o') as ->.
    { apply elem_of_cons in Hin as [?|Hin]; [done|].
      exfalso. apply Hnot. rewrite Heq, <- Hp.
      by apply list_elem_of_fmap_2. }
    rewrite filter_cons_False by (by intros ?).
    rewrite filter_self_ne by (by rewrite <- Heq). done.
  - apply elem_of_cons in Hin as [->|Hin]; [done|].
    rewrite IH by done. simpl. by rewrite filter_cons_True.
Qed.

(** X16: with distinct node addresses, detaching address [p] removes the
    node at [p] from the list and nothing else, keeping the order of the
    others; the deletion hook of that node, if it has one, is called once
    and the node is freed.  When no node of the list has address [p] the
    call does nothing at all. *)
Theorem detach_removes_exactly_that_observer t p :
  NoDup (self <$> observer_list t) →
  fst (TCOD_tileset_observer_delete t p)
  = with_observer_list t (filter (λ o, self o ≠ p) (observer_list t))
  ∧ (p ∉ self <$> observer_list t →
       TCOD_tileset_observer_delete t p = (t, []))
  ∧ (∀ o, o ∈ observer_list t → self o = p →
       snd (TCOD_tileset_observer_delete t p)
       = (if on_observer_delete o then [DeleteHook p] else [])
         ++ [Free (ObserverNode p)]).
Proof.
  intros Hnd. unfold TCOD_tileset_observer_delete.
  assert (∀ o, o ∈ observer_list t → self o = p →
            unlink (observer_list t) p
            = Some (o, filter (λ o, self o ≠ p) (observer_list t))) as Hin.
  { intros o ??. by apply unlink_Some. }
  assert (p ∉ self <$> observer_list t →
            unlink (observer_list t) p = None
            ∧ filter (λ o, self o ≠ p) (observer_list t) = observer_list t)
    as Hout.
  { intros ?. split; [by apply unlink_None|by apply filter_self_ne]. }
  split_and!.
  - destruct (decide (p ∈ self <$> observer_list t)) as [Hp|Hp].
    + apply list_elem_of_fmap in Hp as (o & -> & Ho).
      by rewrite (Hin o Ho eq_refl).
    + destruct (Hout Hp) as [-> ->]. simpl.
      by rewrite with_observer_list_id.
  - intros Hp. by destruct (Hout Hp) as [-> _].
  - intros o Ho Hp. rewrite (Hin o Ho Hp). simpl. by rewrite Hp.
Qed.

Lemma detach_removes_exactly_that_observer_witness :
  ∃ t,
    attach_two (TCOD_tileset_new 8 8) 1%nat 2%nat (λ _ _, 0) (λ _ _, 0)
    = Some t
    ∧ observer_list (fst (TCOD_tileset_observer_delete t 1%nat))
      = filter (λ o, self o ≠ 1%nat) (observer_list t)
    ∧ TCOD_tileset_observer_delete t 3%nat = (t, [])
    ∧ snd (TCOD_tileset_observer_delete t 1%nat)
      = [DeleteHook 1%nat; Free (ObserverNode 1%nat)].
Proof.
  eexists. split; [reflexivity|].
  lazymatch goal with
  | |- observer_list (fst (TCOD_tileset_observer_delete ?t _)) = _ ∧ _ =>
      assert (NoDup (self <$> observer_list t)) as Hnd
        by (apply (bool_decide_unpack _); vm_compute; exact I);
      destruct (detach_removes_exactly_that_observer t 1%nat Hnd)
        as (Hlist & _ & Hlog);
      destruct (detach_removes_exactly_that_observer t 3%nat Hnd)
        as (_ & Hnone & _)
  end.
  split; [by rewrite Hlist|]. split.
  - apply Hnone. apply (bool_decide_unpack _). vm_compute. exact I.
  - rewrite (Hlog (Observer 1%nat (Some (λ _ _, 0)) true));
      [reflexivity| |reflexivity].
    apply elem_of_cons. right. apply elem_of_cons. by left.
Defined.

(** X17: a tile write that reaches its copy returns 0 exactly when every
    change hook returns 0 for the tile id and the codepoint; then every
    observer that has a change hook was notified once, in the order of the
    list, with that tile id and codepoint, and observers without a hook were
    passed over.  The write leaves the observer list as it is. *)
Theorem tile_write_notifies_every_observer_in_order
    mem t codepoint block t' status log tile_id :
  TCOD_tileset_set_tile_ mem t codepoint block = Some (t', status, log) →
  TCOD_tileset_get_charmap t' codepoint = Some tile_id → 0 ≤ tile_id →
  (status = 0 ↔
     ∀ o hook, o ∈ observer_list t → on_tileset_changed o = Some hook →
       hook tile_id codepoint = 0)
  ∧ (status = 0 → log = notified (observer_list t) tile_id codepoint)
  ∧ observer_list t' = observer_list t.
Proof.
  intros Hs Hget Htid.
  pose proof (set_tile_same_frame _ _ _ _ _ _ _ Hs) as (_&_&_&Hobs&_).
  destruct (set_tile_written _ _ _ _ _ _ _ _ Hs Hget Htid)
    as (t1 & px & _ & _ & Hn & _).
  apply notify_observers_spec in Hn
    as [(-> & -> & Hall)|(vis & o & rest & hook & Hl & Hh & Hr & Hnz & _ & ->)].
  - done.
  - split_and!; [|done..]. split; [done|]. intros Hall. exfalso.
    apply Hnz. rewrite <- Hr. apply (Hall o); [|done].
    rewrite Hl. apply elem_of_app. right. by left.
Qed.

Lemma tile_write_notifies_every_observer_in_order_witness :
  ∃ t2 t',
    attach_two (TCOD_tileset_new 1 1) 1%nat 2%nat (λ _ _, 0) (λ _ _, 0)
    = Some t2
    ∧ TCOD_tileset_set_tile_ leftovers t2 65 [RGBA 10 20 30 40]
      = Some (t', 0, [ChangeHook 2%nat 1 65; ChangeHook 1%nat 1 65])
    ∧ observer_list t' = observer_list t2
    ∧ (0 = 0 →
       [ChangeHook 2%nat 1 65; ChangeHook 1%nat 1 65]
       = notified (observer_list t2) 1 65).
Proof.
  eexists _, _. split; [reflexivity|]. split; [vm_compute; reflexivity|].
  lazymatch goal with
  | |- observer_list ?t' = observer_list ?t2 ∧ _ =>
      destruct (tile_write_notifies_every_observer_in_order leftovers t2 65
                  [RGBA 10 20 30 40] t' 0
                  [ChangeHook 2%nat 1 65; ChangeHook 1%nat 1 65] 1)
        as (_ & Hlog & Hobs);
        [vm_compute; reflexivity|vm_compute; reflexivity|lia|]
  end.
  split; [exact Hobs|exact Hlog].
Defined.





(** ** More on the loader *)

Lemma load_tile_length font font_width columns t color_key i buf buf' :
  load_tile font font_width columns t color_key i buf = Some buf' →
  length buf' = length buf.
Proof.
  rewrite load_tile_unfold.
  destruct (for_range 0 (tile_height t) _ (false, false)) as [[hc ha]|];
    [|done].
  cbn [mbind option_bind]. intros Hrun.
  refine (for_range_preserve (λ b, length b = length buf) _ _ _ _ _
            eq_refl _ Hrun).
  intros y b1 b2 _ Hb1 Hrow.
  refine (for_range_preserve (λ b, length b = length buf) _ _ _ _ _
            Hb1 _ Hrow).
  intros x b3 b4 _ Hb3 Hbody.
  destruct (font_pixel _ _ _ _ _ _ _) as [p|]; [|done]. simpl in Hbody.
  destruct (keyed _ _ _) as [v|]; [|done]. simpl in Hbody.
  by rewrite (store_length _ _ _ _ Hbody).
Qed.

(** The last loop of a successful load and the tileset it starts from. *)
Lemma load_inv_charmap font font_width font_height malloc_pixels mem
    columns rows n charmap t :
  TCOD_tileset_load (Some (font, font_width, font_height)) malloc_pixels mem
    columns rows n charmap = Some (Some t) →
  ∃ t0,
    for_range 0 (charmap_entries charmap n columns rows)
      (assign_cell mem charmap) (Some t0) = Some (Some t)
    ∧ to_unsigned columns ≠ 0 ∧ to_unsigned rows ≠ 0
    ∧ tile_width t0 = font_width `quot` to_unsigned columns
    ∧ tile_height t0 = font_height `quot` to_unsigned rows
    ∧ tile_length t0 = tile_width t0 * tile_height t0
    ∧ tiles_capacity t0 = columns * rows ∧ tiles_count t0 = columns * rows
    ∧ length (pixels t0) = Z.to_nat (tile_length t0 * (columns * rows))
    ∧ character_map_length t0 = 0 ∧ character_map t0 = []
    ∧ observer_list t0 = [] ∧ virtual_columns t0 = columns
    ∧ ref_count t0 = 1.
Proof.
  destruct malloc_pixels as [junk|];
    [|unfold TCOD_tileset_load; by case_decide].
  rewrite load_unfold. case_decide as Hz; [done|]. cbv zeta.
  set (t0 := atlas_tileset font_width font_height columns rows _).
  intros Hrun.
  destruct (detect_color_key font font_width t0) as [color_key|] eqn:Hck;
    [|done].
  cbn [mbind option_bind] in Hrun.
  destruct (for_range 0 (columns * rows)
              (load_tile font font_width columns t0 color_key) (pixels t0))
    as [px|] eqn:Hpx; [|done].
  cbn [mbind option_bind] in Hrun.
  exists (with_pixels t0 (tiles_capacity t0) px).
  split; [exact Hrun|].
  assert (length px = length (pixels t0)) as Hlen.
  { refine (for_range_preserve (λ b, length b = length (pixels t0)) _ _ _ _ _
              eq_refl _ Hpx).
    intros i b1 b2 _ Hb1 Hb. by rewrite (load_tile_length _ _ _ _ _ _ _ _ Hb). }
  split_and!; try done; try tauto.
  simpl. rewrite Hlen. unfold t0, atlas_tileset. simpl.
  by rewrite realloc_length.
Qed.

(** Whatever an assignment preserves, the last loop of the loader
    preserves. *)
Lemma load_charmap_loop_preserve (Q : TCOD_Tileset → Prop) mem charmap n t0 t :
  Q t0 →
  (∀ m t1 c i t2 ret,
     Q t1 → TCOD_tileset_assign_charmap m t1 c i = Some (t2, ret) → Q t2) →
  for_range 0 n (assign_cell mem charmap) (Some t0) = Some (Some t) →
  Q t.
Proof.
  intros H0 Hstep Hrun.
  assert (∀ t', Some t = Some t' → Q t') as HQ; [|by apply HQ].
  refine (for_range_preserve (λ st, ∀ t', st = Some t' → Q t') _ _ _ _ _
            _ _ Hrun).
  - by intros t' [= <-].
  - intros i [t1|] st2 _ HQ1 Hbody; [|by simplify_eq/=].
    simpl in Hbody.
    destruct (atlas_codepoint charmap i) as [cp|]; [|done]. simpl in Hbody.
    destruct (TCOD_tileset_assign_charmap (mem i) t1 cp i)
      as [[t2 status]|] eqn:Has; [|done].
    simpl in Hbody. revert Hbody. case_decide; intros [= <-]; [done|].
    intros t' [= <-]. eapply Hstep; [|exact Has]. by apply HQ1.
Qed.

(** The charmap that the last loop of the loader builds from an empty one. *)
Lemma load_charmap_loop_spec mem charmap n t0 t :
  character_map_length t0 = 0 →
  for_range 0 n (assign_cell mem charmap) (Some t0) = Some (Some t) →
  (∀ i, 0 ≤ i < n →
     i < tiles_count t0
     ∧ ∃ cp, atlas_codepoint charmap i = Some cp
             ∧ 0 ≤ cp < character_map_length t)
  ∧ (∀ i cp, 0 ≤ i < n → atlas_codepoint charmap i = Some cp →
       (∀ j, i < j < n → atlas_codepoint charmap j ≠ Some cp) →
       TCOD_tileset_get_charmap t cp = Some i)
  ∧ (∀ c, 0 ≤ c < character_map_length t →
       (∀ j, 0 ≤ j < n → atlas_codepoint charmap j ≠ Some c) →
       TCOD_tileset_get_charmap t c = Some 0).
Proof.
  intros Hlen0 Hrun.
  destruct (decide (0 ≤ n)) as [Hn|Hn]; last first.
  { rewrite for_range_nil in Hrun by lia. simplify_eq.
    split_and!; intros; lia. }
  set (Inv := λ (k : Z) (st : option TCOD_Tileset),
    ∀ t1, st = Some t1 →
      tiles_count t1 = tiles_count t0
      ∧ (∀ i, 0 ≤ i < k →
           i < tiles_count t0
           ∧ ∃ cp, atlas_codepoint charmap i = Some cp
                   ∧ 0 ≤ cp < character_map_length t1)
      ∧ (∀ i cp, 0 ≤ i < k → atlas_codepoint charmap i = Some cp →
           (∀ j, i < j < k → atlas_codepoint charmap j ≠ Some cp) →
           TCOD_tileset_get_charmap t1 cp = Some i)
      ∧ (∀ c, 0 ≤ c < character_map_length t1 →
           (∀ j, 0 ≤ j < k → atlas_codepoint charmap j ≠ Some c) →
           TCOD_tileset_get_charmap t1 c = Some 0)).
  assert (Inv n (Some t)) as HI.
  { refine (for_range_ind Inv 0 n _ _ _ Hn _ _ Hrun).
    - intros t1 [= <-]. split_and!; intros; lia.
    - intros k [t1|] st2 Hk HI1 Hbody; [|by simplify_eq/=].
      simpl in Hbody.
      destruct (atlas_codepoint charmap k) as [cpk|] eqn:Hcpk; [|done].
      simpl in Hbody.
      destruct (TCOD_tileset_assign_charmap (mem k) t1 cpk k)
        as [[t2 status]|] eqn:Has; [|done].
      simpl in Hbody. revert Hbody. case_decide as Hst; intros [= <-]; [done|].
      intros t' [= <-].
      destruct (HI1 t1 eq_refl) as (Hcnt & Hb & Hc & Hd).
      pose proof Has as (_ & _ & Hcnt2 & _)%assign_charmap_same_frame.
      apply assign_charmap_success in Has
        as (-> & Hcp0 & Htid & Hle & Hget & Hkeep & Hfresh); [|lia].
      assert (0 ≤ cpk < character_map_length t2) as Hcpk_in.
      { apply get_charmap_Some in Hget as [[? _]|[? _]]; lia. }
      split_and!.
      + congruence.
      + intros i Hi. destruct (decide (i = k)) as [->|Hne].
        * split; [lia|]. by exists cpk.
        * destruct (Hb i) as (? & cp & ? & ?); [lia|].
          split; [done|]. exists cp. split; [done|lia].
      + intros i cp Hi Hcp Hlast. destruct (decide (i = k)) as [->|Hne].
        * by simplify_eq.
        * assert (cp ≠ cpk) as Hcne.
          { intros ->. by apply (Hlast k); [lia|]. }
          destruct (Hb i) as (_ & cp' & Hcp' & Hin); [lia|]. simplify_eq.
          apply Hkeep; [done|done|].
          apply Hc; [lia|done|]. intros j ?. apply Hlast. lia.
      + intros c Hcin Hun.
        assert (c ≠ cpk) as Hcne.
        { intros ->. by apply (Hun k); [lia|]. }
        destruct (decide (c < character_map_length t1)).
        * apply Hkeep; [done|lia|].
          apply Hd; [lia|]. intros j ?. apply Hun. lia.
        * apply Hfresh; [done|lia]. }
  destruct (HI t eq_refl) as (_ & ? & ? & ?). done.
Qed.







(** ** Sizes in the range of [int] *)




(** With the sizes of the arena in the range of [int], the next tile id
    and the offset of every tile in use are in range. *)
Lemma arena_in_int_offsets t tile_id :
  tileset_wf t → in_int (tiles_capacity t * tile_length t) →
  0 ≤ tile_id < tiles_count t →
  in_int (tile_length t * tile_id).
Proof.
  intros [Htl Hcnt _ _ _ _] [? ?] ?.
  unfold in_int, INT_MIN, INT_MAX in *. split; nia.
Qed.



(** X7: on a well-formed tileset whose capacity can be doubled within
    [int] and whose arena after a growth has a number of pixels in the range
    of [int], for a codepoint below [2^30] and a buffer of at least
    [tile_length] pixels, [TCOD_tileset_set_tile_] reads and writes inside
    its buffers only.  The tileset it leaves is well formed again, also when
    it reports a failure, and its capacity, its count, the number of pixels
    of its arena and the offsets of its tiles are in the range of [int]: the
    products of the call did not overflow. *)
Theorem set_tile_stays_in_bounds mem t codepoint buffer :
  tileset_wf t → codepoint < 2 ^ 30 →
  tile_length t ≤ Z.of_nat (length buffer) →
  in_int (tiles_capacity t * 2) →
  in_int (grown_capacity t * tile_length t) →
  ∃ t' status log,
    TCOD_tileset_set_tile_ mem t codepoint buffer = Some (t', status, log)
    ∧ tileset_wf t'
    ∧ (tiles_capacity t' = tiles_capacity t
       ∨ tiles_capacity t' = grown_capacity t)
    ∧ in_int (tiles_capacity t') ∧ in_int (tiles_count t')
    ∧ in_int (tiles_capacity t' * tile_length t')
    ∧ ∀ tile_id, 0 ≤ tile_id < tiles_count t' →
        in_int (tile_length t' * tile_id).
Proof.
  intros Hwf Hc Hbuf Hdouble Hgrown.
  destruct (set_tile_defined mem t codepoint buffer Hwf Hc Hbuf)
    as [[[t' status] log] Hs].
  exists t', status, log. split; [done|].
  assert (tileset_wf t') as Hwf' by by eapply set_tile_wf.
  split; [done|].
  pose proof (set_tile_same_frame _ _ _ _ _ _ _ Hs) as (_ & _ & Hl & _).
  assert (tiles_capacity t' = tiles_capacity t
          ∨ tiles_capacity t' = grown_capacity t) as Hcap.
  { destruct (set_tile_capacity _ _ _ _ _ _ _ Hs) as [?|[_ ?]]; tauto. }
  split; [done|].
  destruct Hwf as [Htl Hcnt _ _ _ _]. destruct Hwf' as [_ Hcnt' _ _ _ _].
  assert (0 ≤ tiles_capacity t' ≤ grown_capacity t
          ∧ grown_capacity t ≤ INT_MAX) as [Hle Hmax].
  { unfold grown_capacity, DEFAULT_TILES_LENGTH, in_int, INT_MIN, INT_MAX
      in *.
    destruct Hcap as [->| ->]; repeat case_decide; lia. }
  rewrite Hl.
  assert (in_int (tiles_capacity t' * tile_length t)) as Hpx.
  { unfold in_int, INT_MIN, INT_MAX in *. split; nia. }
  split_and!; try done.
  - unfold in_int, INT_MIN, INT_MAX in *. lia.
  - unfold in_int, INT_MIN, INT_MAX in *. lia.
  - intros tile_id Htid. unfold in_int, INT_MIN, INT_MAX in *. split; nia.
Qed.

Lemma set_tile_stays_in_bounds_witness :
  ∃ t' status log,
    TCOD_tileset_set_tile_ leftovers (TCOD_tileset_new 8 8) 65
      opaque_gray_8x8 = Some (t', status, log)
    ∧ tileset_wf t'
    ∧ (tiles_capacity t' = tiles_capacity (TCOD_tileset_new 8 8)
       ∨ tiles_capacity t' = grown_capacity (TCOD_tileset_new 8 8))
    ∧ in_int (tiles_capacity t') ∧ in_int (tiles_count t')
    ∧ in_int (tiles_capacity t' * tile_length t')
    ∧ ∀ tile_id, 0 ≤ tile_id < tiles_count t' →
        in_int (tile_length t' * tile_id).
Proof.
  apply set_tile_stays_in_bounds.
  - apply new_wf; lia.
  - lia.
  - simpl. lia.
  - unfold in_int, INT_MIN, INT_MAX. simpl. lia.
  - unfold in_int, INT_MIN, INT_MAX. vm_compute. split; discriminate.
Defined.

(** With [atlas_in_int] the conversions of the loader keep the values, the
    tile sizes are in the range of [int] and the arena is no larger than the
    image. *)
Lemma atlas_in_int_exact font_width font_height columns rows :
  atlas_in_int font_width font_height columns rows →
  to_unsigned columns = columns ∧ to_unsigned rows = rows
  ∧ 0 ≤ font_width `quot` columns ≤ font_width
  ∧ 0 ≤ font_height `quot` rows ≤ font_height
  ∧ columns * rows * (font_width `quot` columns * (font_height `quot` rows))
    ≤ font_width * font_height.
Proof.
  unfold atlas_in_int, in_int, INT_MIN, INT_MAX.
  intros (Hc & Hr & [_ Hcr] & Hw & Hh & [_ Hwm] & [_ Hhm] & _).
  assert (columns ≤ columns * rows ∧ rows ≤ columns * rows) as [? ?] by nia.
  assert (0 ≤ font_width `quot` columns) by (apply Z.quot_pos; lia).
  assert (0 ≤ font_height `quot` rows) by (apply Z.quot_pos; lia).
  assert (columns * (font_width `quot` columns) ≤ font_width)
    by (apply Z.mul_quot_le; lia).
  assert (rows * (font_height `quot` rows) ≤ font_height)
    by (apply Z.mul_quot_le; lia).
  split_and!; try lia.
  - apply Z.mod_small. lia.
  - apply Z.mod_small. lia.
  - nia.
  - nia.
  - set (tw := font_width `quot` columns) in *.
    set (th := font_height `quot` rows) in *.
    replace (columns * rows * (tw * th)) with (columns * tw * (rows * th))
      by ring.
    apply Z.mul_le_mono_nonneg; nia.
Qed.

(** The offsets and indices of the loops of the loader over cell [i]:
    [font_y], [font_x], [font_i], [tile_i], the index into the image and
    the index into the arena. *)
Lemma atlas_in_int_cell font_width font_height columns rows i y x :
  atlas_in_int font_width font_height columns rows →
  0 ≤ i < columns * rows →
  0 ≤ y < font_height `quot` rows → 0 ≤ x < font_width `quot` columns →
  in_int (i `quot` columns * (font_height `quot` rows))
  ∧ in_int (i `rem` columns * (font_width `quot` columns))
  ∧ in_int (i `quot` columns * (font_height `quot` rows) * font_width
            + i `rem` columns * (font_width `quot` columns))
  ∧ in_int (i * (font_width `quot` columns * (font_height `quot` rows)))
  ∧ 0 ≤ i `quot` columns * (font_height `quot` rows) * font_width
        + i `rem` columns * (font_width `quot` columns) + y * font_width + x
    < font_width * font_height
  ∧ 0 ≤ i * (font_width `quot` columns * (font_height `quot` rows))
        + y * (font_width `quot` columns) + x
    < columns * rows
      * (font_width `quot` columns * (font_height `quot` rows)).
Proof.
  intros Hin Hi Hy Hx.
  destruct (atlas_in_int_exact _ _ _ _ Hin) as (_ & _ & Htw & Hth & Hle).
  pose proof (font_index_bound font_width font_height columns rows i y x)
    as Hidx.
  destruct Hin as (Hc & Hr & _ & Hw & Hh & [_ Hwm] & [_ Hhm] & [_ Hpx]).
  specialize (Hidx Hc Hr Hw Hh Hi Hy Hx).
  assert (columns * (font_width `quot` columns) ≤ font_width) as Hcw
    by (apply Z.mul_quot_le; lia).
  assert (rows * (font_height `quot` rows) ≤ font_height) as Hrh
    by (apply Z.mul_quot_le; lia).
  assert (0 ≤ i `quot` columns < rows) as Hq.
  { split; [apply Z.quot_pos; lia|]. apply Z.quot_lt_upper_bound; lia. }
  assert (0 ≤ i `rem` columns < columns) as Hm
    by (apply Z.rem_bound_pos; lia).
  revert Hy Hx Htw Hth Hle Hidx Hcw Hrh Hq Hm.
  generalize (i `quot` columns) (i `rem` columns)
    (font_height `quot` rows) (font_width `quot` columns).
  intros q m th tw Hy Hx Htw Hth Hle Hidx Hcw Hrh Hq Hm.
  assert (0 ≤ q * th ≤ rows * th) as Hqth.
  { split; [apply Z.mul_nonneg_nonneg; lia|].
    apply Z.mul_le_mono_nonneg_r; lia. }
  assert (0 ≤ m * tw ≤ columns * tw) as Hmtw.
  { split; [apply Z.mul_nonneg_nonneg; lia|].
    apply Z.mul_le_mono_nonneg_r; lia. }
  assert (0 ≤ q * th * font_width) as Hqf
    by (apply Z.mul_nonneg_nonneg; lia).
  assert (0 ≤ y * font_width) as Hyf by (apply Z.mul_nonneg_nonneg; lia).
  assert (0 ≤ tw * th) as Htl by (apply Z.mul_nonneg_nonneg; lia).
  assert (0 ≤ i * (tw * th)) as Hitl by (apply Z.mul_nonneg_nonneg; lia).
  assert ((i + 1) * (tw * th) ≤ columns * rows * (tw * th)) as Hend
    by (apply Z.mul_le_mono_nonneg_r; lia).
  assert (0 ≤ y * tw) as Hytw by (apply Z.mul_nonneg_nonneg; lia).
  assert ((y + 1) * tw ≤ th * tw) as Hrow
    by (apply Z.mul_le_mono_nonneg_r; lia).
  unfold in_int, INT_MIN, INT_MAX in *. split_and!; lia.
Qed.

(** The tileset of a successful load within [atlas_in_int]. *)
Lemma load_geometry
    font font_width font_height malloc_pixels mem columns rows n charmap t :
  TCOD_tileset_load (Some (font, font_width, font_height)) malloc_pixels mem
    columns rows n charmap = Some (Some t) →
  atlas_in_int font_width font_height columns rows →
  tileset_wf t
  ∧ tile_width t = font_width `quot` columns
  ∧ tile_height t = font_height `quot` rows
  ∧ tile_length t = font_width `quot` columns * (font_height `quot` rows)
  ∧ tiles_count t = columns * rows ∧ tiles_capacity t = columns * rows
  ∧ virtual_columns t = columns ∧ ref_count t = 1 ∧ observer_list t = [].
Proof.
  intros (t0 & Hrun & Hfacts)%load_inv_charmap Hin.
  destruct Hfacts as (_ & _ & Hw0 & Hh0 & Hl0 & Hcap0 & Hcnt0 & Hpx0 & Hlen0
                      & Hcm0 & Hobs0 & Hvc0 & Hrc0).
  destruct (atlas_in_int_exact _ _ _ _ Hin) as (Huc & Hur & Htw & Hth & _).
  destruct Hin as (Hc & Hr & _).
  rewrite Huc in Hw0. rewrite Hur in Hh0.
  assert (tileset_wf t0) as Hwf0.
  { split.
    - rewrite Hl0, Hw0, Hh0. lia.
    - lia.
    - rewrite Hpx0, Hcap0, Hl0, Hw0, Hh0. rewrite Z2Nat.id by nia. lia.
    - by rewrite Hcm0, Hlen0.
    - rewrite Hcm0. constructor.
    - lia. }
  assert (tileset_wf t ∧ same_frame t0 t ∧ tiles_count t = tiles_count t0
          ∧ tiles_capacity t = tiles_capacity t0) as (Hwf & Hsf & Hcnt & Hcap).
  { refine (load_charmap_loop_preserve
              (λ t1, tileset_wf t1 ∧ same_frame t0 t1
                     ∧ tiles_count t1 = tiles_count t0
                     ∧ tiles_capacity t1 = tiles_capacity t0)
              _ _ _ _ _ _ _ Hrun).
    - split_and!; done || by repeat split.
    - intros m t1 c i t2 ret (Hwf1 & Hsf1 & Hcnt1 & Hcap1) Has.
      pose proof Has as (Hsf2 & _ & Hcnt2 & Hcap2)%assign_charmap_same_frame.
      split_and!.
      + by eapply assign_charmap_wf.
      + by eapply same_frame_trans.
      + congruence.
      + congruence. }
  destruct Hsf as (Hw1 & Hh1 & Hl1 & Hobs1 & Hvc1 & Hrc1).
  split_and!; try done; congruence.
Qed.

(** X22: a tileset returned by the loader for an image and a grid of
    [columns] by [rows] cells whose sizes are in the range of [int] is well
    formed: its tiles are [font_width / columns] by [font_height / rows]
    pixels, the arena holds exactly [columns * rows] tiles, all of them in
    use, every charmap entry is a tile of the arena, and it starts with one
    owner, no observer and [columns] virtual columns.  The tile length, the
    number of tiles and the number of pixels of the arena, which is at most
    that of the image, are in the range of [int]. *)
Theorem loaded_tileset_is_well_formed
    font font_width font_height malloc_pixels mem columns rows n charmap t :
  TCOD_tileset_load (Some (font, font_width, font_height)) malloc_pixels mem
    columns rows n charmap = Some (Some t) →
  atlas_in_int font_width font_height columns rows →
  tileset_wf t
  ∧ TCOD_tileset_get_tile_width_ (Some t) = font_width `quot` columns
  ∧ TCOD_tileset_get_tile_height_ (Some t) = font_height `quot` rows
  ∧ tile_length t = font_width `quot` columns * (font_height `quot` rows)
  ∧ tiles_count t = columns * rows ∧ tiles_capacity t = columns * rows
  ∧ virtual_columns t = columns ∧ ref_count t = 1 ∧ observer_list t = []
  ∧ in_int (tile_length t) ∧ in_int (tiles_count t)
  ∧ tiles_capacity t * tile_length t ≤ font_width * font_height
  ∧ in_int (tiles_capacity t * tile_length t).
Proof.
  intros Hload Hin.
  destruct (load_geometry _ _ _ _ _ _ _ _ _ _ Hload Hin)
    as (Hwf & Hw & Hh & Hl & Hcnt & Hcap & Hvc & Hrc & Hobs).
  destruct (atlas_in_int_exact _ _ _ _ Hin) as (_ & _ & Htw & Hth & Hle).
  destruct Hin as (Hc & Hr & Hcr & Hfw & Hfh & Hwm & Hhm & Hpx).
  simpl. rewrite Hcap, Hcnt, Hl.
  unfold in_int, INT_MIN, INT_MAX in *.
  split_and!; try done; try nia.
Qed.

Lemma loaded_tileset_is_well_formed_witness :
  ∃ t,
    load_identity white_then_gray_2x1 2 1 2 1 = Some (Some t)
    ∧ tileset_wf t
    ∧ TCOD_tileset_get_tile_width_ (Some t) = 2 `quot` 2
    ∧ TCOD_tileset_get_tile_height_ (Some t) = 1 `quot` 1
    ∧ tile_length t = 2 `quot` 2 * (1 `quot` 1)
    ∧ tiles_count t = 2 * 1 ∧ tiles_capacity t = 2 * 1
    ∧ virtual_columns t = 2 ∧ ref_count t = 1 ∧ observer_list t = []
    ∧ in_int (tile_length t) ∧ in_int (tiles_count t)
    ∧ tiles_capacity t * tile_length t ≤ 2 * 1
    ∧ in_int (tiles_capacity t * tile_length t).
Proof.
  eexists. split; [vm_compute; reflexivity|].
  eapply (loaded_tileset_is_well_formed white_then_gray_2x1 2 1
            (Some (λ _, RGBA 1 2 3 4)) (λ _, Some (λ _, 77)) 2 1 0 None).
  - vm_compute. reflexivity.
  - unfold atlas_in_int, in_int, INT_MIN, INT_MAX. lia.
Defined.

(** X23: for an image that has its [font_width * font_height] pixels, with
    sizes in the range of [int], a grid of at most [2^30] cells and memory
    available, the loader with no charmap returns a tileset.  Every offset
    it computes for a cell ([font_y], [font_x], [tile_i]) is in the range of
    [int], every pixel it reads lies in the image and every pixel it writes
    in the arena.  In the tileset every cell index is a codepoint of its own
    cell: the charmap maps [i] to tile [i] and [TCOD_tileset_get_tile]
    points at offset [tile_length * i] of the arena, an offset in the range
    of [int]. *)
Theorem atlas_identity_charmap_reaches_every_cell
    font font_width font_height junk mem columns rows n :
  atlas_in_int font_width font_height columns rows →
  Z.of_nat (length font) = font_width * font_height →
  columns * rows ≤ 2 ^ 30 →
  (∀ i, is_Some (mem i)) →
  ∃ t,
    TCOD_tileset_load (Some (font, font_width, font_height)) (Some junk) mem
      columns rows n None = Some (Some t)
    ∧ (∀ i y x, 0 ≤ i < columns * rows →
         0 ≤ y < tile_height t → 0 ≤ x < tile_width t →
         in_int (i `quot` columns * tile_height t)
         ∧ in_int (i `rem` columns * tile_width t)
         ∧ in_int (i * tile_length t)
         ∧ is_Some (font_pixel font font_width columns t i y x)
         ∧ 0 ≤ i * tile_length t + y * tile_width t + x
           < Z.of_nat (length (pixels t)))
    ∧ (∀ i, 0 ≤ i < columns * rows →
         TCOD_tileset_get_charmap t i = Some i
         ∧ TCOD_tileset_get_tile t i = Some (Some (tile_length t * i))
         ∧ in_int (tile_length t * i)
         ∧ tile_length t * i + tile_length t
           ≤ Z.of_nat (length (pixels t))).
Proof.
  intros Hin Hfont Hcells Hmem.
  pose proof Hin as (Hc & Hr & [_ Hcr] & Hw & Hh & _).
  destruct (load_defined font font_width font_height junk mem columns rows n)
    as [t Hload]; try done.
  { unfold INT_MAX in Hcr. nia. }
  { unfold INT_MAX in Hcr. nia. }
  exists t. split; [done|].
  destruct (load_geometry _ _ _ _ _ _ _ _ _ _ Hload Hin)
    as (Hwf & Htw & Hth & Hl & Hcnt & Hcap & _).
  pose proof (wf_pixels t Hwf) as Hlen. rewrite Hcap, Hl in Hlen.
  split.
  - intros i y x Hi Hy Hx. rewrite Htw in Hx. rewrite Hth in Hy.
    destruct (atlas_in_int_cell _ _ _ _ i y x Hin Hi Hy Hx)
      as (Hfy & Hfx & _ & Hti & Hidx & Harena).
    unfold font_pixel. rewrite Hlen, Hl, Htw, Hth.
    split_and!; try done; try apply Harena.
    apply load_is_Some. by rewrite Hfont.
  - apply load_inv_charmap in Hload as (t0 & Hrun & Hfacts).
    destruct Hfacts as (_ & _ & _ & _ & _ & _ & _ & _ & Hlen0 & _).
    destruct (load_charmap_loop_spec _ _ _ _ _ Hlen0 Hrun) as (_ & Hlast & _).
    intros i Hi.
    assert (TCOD_tileset_get_charmap t i = Some i) as Hget.
    { apply Hlast; [done|done|]. simpl. intros j ? [=]. lia. }
    split; [done|]. split.
    { unfold TCOD_tileset_get_tile. rewrite Hget. simpl.
      by rewrite decide_False by lia. }
    destruct (atlas_in_int_exact _ _ _ _ Hin) as (_ & _ & Hqw & Hqh & Hle).
    destruct Hin as (_ & _ & _ & _ & _ & _ & _ & [_ Hpx]).
    rewrite Hlen, Hl.
    revert Hqw Hqh Hle.
    generalize (font_width `quot` columns) (font_height `quot` rows).
    intros tw th Hqw Hqh Hle.
    assert (0 ≤ tw * th) by (apply Z.mul_nonneg_nonneg; lia).
    assert (0 ≤ tw * th * i) by (apply Z.mul_nonneg_nonneg; lia).
    assert ((i + 1) * (tw * th) ≤ columns * rows * (tw * th))
      by (apply Z.mul_le_mono_nonneg_r; lia).
    unfold in_int, INT_MIN, INT_MAX in *. lia.
Qed.

Lemma atlas_identity_charmap_reaches_every_cell_witness :
  ∃ t,
    TCOD_tileset_load (Some (white_then_gray_2x1, 2, 1))
      (Some (λ _, RGBA 1 2 3 4)) (λ _, Some (λ _, 77)) 2 1 0 None
    = Some (Some t)
    ∧ (∀ i y x, 0 ≤ i < 2 * 1 →
         0 ≤ y < tile_height t → 0 ≤ x < tile_width t →
         in_int (i `quot` 2 * tile_height t)
         ∧ in_int (i `rem` 2 * tile_width t)
         ∧ in_int (i * tile_length t)
         ∧ is_Some (font_pixel white_then_gray_2x1 2 2 t i y x)
         ∧ 0 ≤ i * tile_length t + y * tile_width t + x
           < Z.of_nat (length (pixels t)))
    ∧ (∀ i, 0 ≤ i < 2 * 1 →
         TCOD_tileset_get_charmap t i = Some i
         ∧ TCOD_tileset_get_tile t i = Some (Some (tile_length t * i))
         ∧ in_int (tile_length t * i)
         ∧ tile_length t * i + tile_length t
           ≤ Z.of_nat (length (pixels t))).
Proof.
  apply (atlas_identity_charmap_reaches_every_cell white_then_gray_2x1 2 1
           (λ _, RGBA 1 2 3 4) (λ _, Some (λ _, 77)) 2 1 0).
  - unfold atlas_in_int, in_int, INT_MIN, INT_MAX. lia.
  - reflexivity.
  - lia.
  - intros i. by eexists.
Defined.

(** X24: on a well-formed tileset whose arena has a number of pixels in the
    range of [int], [TCOD_tileset_get_tile] returns [NULL] exactly for the
    codepoints outside the charmap, and for a codepoint inside it a pointer
    to a whole tile of the arena: the offset is the [int] product of
    [tile_length] and a tile id in use, the [tile_length] pixels behind it
    lie inside the arena, and they are the pixels that
    [TCOD_tileset_get_tile_] copies. *)
Theorem get_tile_points_into_the_arena t codepoint :
  tileset_wf t → in_int (tiles_capacity t * tile_length t) →
  (TCOD_tileset_get_tile t codepoint = Some None
   ↔ codepoint < 0 ∨ codepoint >= character_map_length t)
  ∧ (0 ≤ codepoint < character_map_length t →
     ∃ tile_id,
       TCOD_tileset_get_tile t codepoint
       = Some (Some (tile_length t * tile_id))
       ∧ 0 ≤ tile_id < tiles_count t
       ∧ in_int (tile_length t * tile_id)
       ∧ 0 ≤ tile_length t * tile_id
       ∧ tile_length t * tile_id + tile_length t
         ≤ Z.of_nat (length (pixels t))
       ∧ ∀ out, Z.of_nat (length out) = tile_length t →
           TCOD_tileset_get_tile_ t codepoint (Some out)
           = Some (0, Some (take (Z.to_nat (tile_length t))
                              (drop (Z.to_nat (tile_length t * tile_id))
                                 (pixels t))))).
Proof.
  intros Hwf Hint.
  destruct (get_charmap_defined t codepoint Hwf) as (v & Hv & Hv1).
  assert (0 ≤ codepoint < character_map_length t → 0 ≤ v < tiles_count t)
    as Hin.
  { intros Hc.
    pose proof Hv as [[_ ?]|[_ Hl]]%get_charmap_Some; [lia|].
    apply load_Some in Hl as [_ Hl].
    pose proof (Forall_lookup_1 _ _ _ _ (wf_entries t Hwf) Hl) as Hr.
    simpl in Hr. lia. }
  split.
  - unfold TCOD_tileset_get_tile. rewrite Hv. simpl. split.
    + case_decide as Hneg; [|done]. intros _.
      destruct (decide (0 ≤ codepoint < character_map_length t)) as [Hc|];
        [|lia].
      apply Hin in Hc. lia.
    + intros Hc. apply get_charmap_Some in Hv as [[-> _]|[? _]]; [done|lia].
  - intros Hc. specialize (Hin Hc). exists v.
    pose proof (arena_in_int_offsets t v Hwf Hint Hin) as Hoff.
    destruct Hwf as [Htl Hcnt Hpx _ _ _].
    assert (tile_length t * v + tile_length t
            ≤ Z.of_nat (length (pixels t))) as Hfit by (rewrite Hpx; nia).
    split_and!; try done; try lia.
    + unfold TCOD_tileset_get_tile. rewrite Hv. simpl.
      by rewrite decide_False by lia.
    + intros out Hout.
      rewrite (get_tile_mapped t codepoint v out) by (done || lia).
      rewrite drop_ge by lia. by rewrite app_nil_r.
Qed.

Lemma get_tile_points_into_the_arena_witness :
  ∃ t,
    blank_assigned = Some t
    ∧ ∃ tile_id,
        TCOD_tileset_get_tile t 300
        = Some (Some (tile_length t * tile_id))
        ∧ 0 ≤ tile_id < tiles_count t
        ∧ in_int (tile_length t * tile_id)
        ∧ 0 ≤ tile_length t * tile_id
        ∧ tile_length t * tile_id + tile_length t
          ≤ Z.of_nat (length (pixels t))
        ∧ ∀ out, Z.of_nat (length out) = tile_length t →
            TCOD_tileset_get_tile_ t 300 (Some out)
            = Some (0, Some (take (Z.to_nat (tile_length t))
                               (drop (Z.to_nat (tile_length t * tile_id))
                                  (pixels t)))).
Proof.
  eexists. split; [vm_compute; reflexivity|].
  lazymatch goal with
  | |- ∃ tile_id, TCOD_tileset_get_tile ?t _ = _ ∧ _ =>
      assert (tileset_wf t) as Hwf
        by (split; apply (bool_decide_unpack _); vm_compute; exact I);
      destruct (get_tile_points_into_the_arena t 300 Hwf) as [_ Hin]
  end.
  - unfold in_int, INT_MIN, INT_MAX. simpl. lia.
  - apply Hin. simpl. lia.
Defined.
